(** * Sensei: serial frontend, mapping processor and event handler

    A shallow embedding of the event-handling core of the Sensei daemon
    (serial_frontend_internal.h, serial_frontend.cpp, mapping_processor.cpp,
    event_handler.h) and the properties of its specification that can be
    settled on it.

    Conventions.  C++ integers are [Z]; a conversion to an unsigned type of
    width [w] is written out as a reduction modulo [2^w].  Byte arrays
    ([char x[N]], [uint8_t x[N]]) are [list Z] holding the raw unsigned
    bytes.  Structs are records.  A pointer that may be null is an
    [option].  Member functions take the object and return the updated
    object next to their result. *)

From stdpp Require Import numbers list.
Local Open Scope Z_scope.

(** ** Loops and machine integers *)

(** [for (unsigned i = 0; i < n; ++i) acc = body(i, acc);] started at [i]. *)
Fixpoint for_loop {A : Type} (body : nat → A → A) (i n : nat) (acc : A) : A :=
  match n with
  | O => acc
  | S n' => for_loop body (S i) n' (body i acc)
  end.

Definition to_uint16 (x : Z) : Z := x mod 2 ^ 16.

(** The [n] bytes of an unsigned integer field in memory (little endian, as
    on the x86 and ARM hosts the daemon runs on), and the value read back. *)
Fixpoint le_bytes (n : nat) (x : Z) : list Z :=
  match n with
  | O => []
  | S n' => x mod 256 :: le_bytes n' (x / 256)
  end.

Fixpoint le_value (bs : list Z) : Z :=
  match bs with
  | [] => 0
  | b :: bs' => b + 256 * le_value bs'
  end.

Definition sum_bytes (bs : list Z) : Z := foldr Z.add 0 bs.

(** ** The serial wire protocol (sensei_serial_protocol.h) *)

Module Protocol.

(** Modelled from the spec: the header sensei_serial_protocol.h, which
    declares [PACKET_HEADER], [sSenseiDataPacket] and the signatures, is not
    among the sources.  The fields are those of the specification (section
    4.3.1); the packet is packed, and [payload], [continuation] and
    [timestamp] are contiguous in that order, as the scan of [calculate_crc]
    (which starts at [payload] and runs over the three sizes) requires.  The
    sizes and the signature bytes are those of the 64-byte vector [test_msg]
    of serial_frontend_test.cpp. *)
Definition SENSEI_LENGTH_HEADER : nat := 3.
Definition SENSEI_PAYLOAD_LENGTH : nat := 49.
Definition SENSEI_LENGTH_DATA_PACKET : Z := 64.

(** Modelled from the spec: [PACKET_HEADER], three bytes [vByte]. *)
Record PACKET_HEADER := { vByte : list Z }.

(** Modelled from the spec: [sSenseiDataPacket], packed; the comments give
    the offset at which each field ends. *)
Record sSenseiDataPacket := {
  start_header : PACKET_HEADER;   (*  3 *)
  cmd          : Z;               (*  4  uint8_t  *)
  sub_cmd      : Z;               (*  5  uint8_t  *)
  payload      : list Z;          (* 54  char[SENSEI_PAYLOAD_LENGTH] *)
  continuation : Z;               (* 55  uint8_t  *)
  timestamp    : Z;               (* 59  uint32_t *)
  crc          : Z;               (* 61  uint16_t *)
  stop_header  : PACKET_HEADER    (* 64 *)
}.

(** Modelled from the spec: the start and stop magic bytes, as the first
    and last three bytes of [test_msg]. *)
Definition START_SIGNATURE : PACKET_HEADER := {| vByte := [1; 2; 3] |}.
Definition STOP_SIGNATURE : PACKET_HEADER := {| vByte := [4; 5; 6] |}.

Definition sizeof_continuation : nat := 1.
Definition sizeof_timestamp : nat := 4.
Definition sizeof_crc : nat := 2.

(** The memory of a packet from its field [payload] to its end: what
    [packet->payload + i] points into. *)
Definition memory_from_payload (p : sSenseiDataPacket) : list Z :=
  payload p ++ le_bytes sizeof_continuation (continuation p)
            ++ le_bytes sizeof_timestamp (timestamp p)
            ++ le_bytes sizeof_crc (crc p)
            ++ vByte (stop_header p).

(** The whole packet as it lies in memory. *)
Definition packet_memory (p : sSenseiDataPacket) : list Z :=
  vByte (start_header p) ++ [cmd p; sub_cmd p] ++ memory_from_payload p.

(** [reinterpret_cast<sSenseiDataPacket*>(buffer)]. *)
Definition slice (off len : nat) (buffer : list Z) : list Z :=
  take len (drop off buffer).

Definition packet_of_buffer (buffer : list Z) : sSenseiDataPacket :=
  {| start_header := {| vByte := slice 0 SENSEI_LENGTH_HEADER buffer |};
     cmd          := nth 3 buffer 0;
     sub_cmd      := nth 4 buffer 0;
     payload      := slice 5 SENSEI_PAYLOAD_LENGTH buffer;
     continuation := nth 54 buffer 0;
     timestamp    := le_value (slice 55 sizeof_timestamp buffer);
     crc          := le_value (slice 59 sizeof_crc buffer);
     stop_header  := {| vByte := slice 61 SENSEI_LENGTH_HEADER buffer |} |}.

(** A packet whose fields have the sizes of the declaration. *)
Definition is_byte (b : Z) : Prop := 0 ≤ b < 256.

#[global] Instance is_byte_dec (b : Z) : Decision (is_byte b).
Proof. unfold is_byte. apply _. Defined.

Record well_formed (p : sSenseiDataPacket) : Prop := {
  wf_start   : length (vByte (start_header p)) = SENSEI_LENGTH_HEADER;
  wf_stop    : length (vByte (stop_header p)) = SENSEI_LENGTH_HEADER;
  wf_payload : length (payload p) = SENSEI_PAYLOAD_LENGTH;
  wf_bytes   : Forall is_byte (packet_memory p)
}.

End Protocol.

(** ** serial_frontend_internal.h *)

Module serial_frontend.
Import Protocol.

(** [compare_packet_header]: the sum over the header of the byte
    differences. *)
Definition compare_packet_header (lhv rhv : PACKET_HEADER) : Z :=
  for_loop (fun i diff => diff + (nth i (vByte lhv) 0 - nth i (vByte rhv) 0))
           0 SENSEI_LENGTH_HEADER 0.

(** [calculate_crc]: the scan starts at [payload] and runs over the sizes
    of [payload], [continuation] and [timestamp]; [sum] is a [uint16_t]. *)
Definition calculate_crc (packet : sSenseiDataPacket) : Z :=
  for_loop (fun i sum => to_uint16 (sum + nth i (memory_from_payload packet) 0))
           0 (SENSEI_PAYLOAD_LENGTH + sizeof_continuation + sizeof_timestamp)
           (to_uint16 (cmd packet + sub_cmd packet)).

End serial_frontend.

(** ** serial_frontend.cpp: verify_message *)

Module verification.
Import Protocol serial_frontend.

Definition verify_message (packet : sSenseiDataPacket) : bool :=
  if negb (compare_packet_header (start_header packet) START_SIGNATURE =? 0)
     || negb (compare_packet_header (stop_header packet) STOP_SIGNATURE =? 0)
  then false
  else if negb (calculate_crc packet =? crc packet)
  then false
  else true.

(** The vector [test_msg] of serial_frontend_test.cpp. *)
Definition test_msg : list Z :=
  [ 0x1; 0x2; 0x3; 0xff; 0x0; 0x0; 0x0; 0x0;
    0x0; 0x8c; 0x3; 0x0; 0x0; 0x64; 0x1; 0x0;
    0x0; 0x0; 0x0; 0x0; 0x0; 0x0; 0x0; 0x0;
    0x0; 0x0; 0x0; 0x0; 0x0; 0x0; 0x0; 0x0;
    0x0; 0x0; 0x0; 0x0; 0x0; 0x0; 0x0; 0x0;
    0x0; 0x0; 0x0; 0x0; 0x0; 0x0; 0x0; 0x0;
    0x0; 0x0; 0x0; 0x0; 0x0; 0x0; 0x0; 0xe8;
    0xe2; 0xf6; 0x10; 0xc3; 0x4; 0x4; 0x5; 0x6 ].

Definition test_packet : sSenseiDataPacket := packet_of_buffer test_msg.

End verification.

(** ** Messages (message/base_command.h, message/base_value.h) *)

Module message.

(** Modelled from the spec: the message classes and their enumerations are
    not among the sources; the tags, payloads and error codes are those of
    the specification (sections 3 and 7).  An enumeration can hold any
    value of its underlying type, hence [PinType_unknown].  A [float] is
    carried as its 32-bit pattern: no modelled function computes with it. *)
Inductive PinType :=
| DIGITAL_INPUT | ANALOG_INPUT | IMU_INPUT | DISABLED
| PinType_unknown (raw : Z).

(** Modelled from the spec: the sending modes. *)
Inductive SendingMode := ON_VALUE_CHANGED | CONTINUOUS | ON_PRESS | ON_RELEASE.

(** Modelled from the spec: an [f32] payload, as its bit pattern. *)
Definition float32 : Type := Z.

(** Modelled from the spec: the command tags, exhaustive (section 3). *)
Inductive CommandTag :=
| SET_PIN_TYPE | SET_SENDING_MODE | SET_SENDING_DELTA_TICKS | SET_SAMPLING_RATE
| SET_ADC_BIT_RESOLUTION | SET_LOWPASS_FILTER_ORDER | SET_LOWPASS_CUTOFF
| SET_SLIDER_THRESHOLD | SET_INVERT_ENABLED | SET_INPUT_SCALE_RANGE
| SET_OUTPUT_RANGE | SEND_DIGITAL_PIN_VALUE | ENABLE_SENDING | SET_MUTE_STATUS
| VERIFY_ACKS | RELOAD_CONFIG.

(** Modelled from the spec: the command classes, one per tag, each with
    the payload of its tag, which [data()] returns.  The names of the
    classes are those of the casts in [create_send_command] and
    [apply_command]. *)
Inductive CommandData :=
| SetPinTypeCommand (data : PinType)
| SetSendingModeCommand (data : SendingMode)
| SetSendingDeltaTicksCommand (data : Z)
| SetSamplingRateCommand (data : float32)
| SetADCBitResolutionCommand (data : Z)
| SetLowpassFilterOrderCommand (data : Z)
| SetLowpassCutoffCommand (data : float32)
| SetSliderThresholdCommand (data : Z)
| SetInvertEnabledCommand (data : bool)
| SetInputScaleRangeCommand (low high : float32)
| SetOutputRangeCommand (low high : float32)
| SendDigitalPinValueCommand (data : Z)
| EnableSendingCommand (data : bool)
| SetMuteStatusCommand (data : bool)
| VerifyAcksCommand (data : bool)
| ReloadConfigCommand.

(** Modelled from the spec: the target of a command. *)
Inductive CommandTarget := MAPPING | HW_FRONTEND | INTERNAL.

(** Modelled from the spec: a command message. *)
Record Command := {
  index     : Z;              (* int, -1 for a global command *)
  timestamp : Z;
  target    : CommandTarget;
  data      : CommandData
}.

(** [cmd->tag()], called [cmd->type()] in mapping_processor.cpp. *)
Definition tag (cmd : Command) : CommandTag :=
  match data cmd with
  | SetPinTypeCommand _ => SET_PIN_TYPE
  | SetSendingModeCommand _ => SET_SENDING_MODE
  | SetSendingDeltaTicksCommand _ => SET_SENDING_DELTA_TICKS
  | SetSamplingRateCommand _ => SET_SAMPLING_RATE
  | SetADCBitResolutionCommand _ => SET_ADC_BIT_RESOLUTION
  | SetLowpassFilterOrderCommand _ => SET_LOWPASS_FILTER_ORDER
  | SetLowpassCutoffCommand _ => SET_LOWPASS_CUTOFF
  | SetSliderThresholdCommand _ => SET_SLIDER_THRESHOLD
  | SetInvertEnabledCommand _ => SET_INVERT_ENABLED
  | SetInputScaleRangeCommand _ _ => SET_INPUT_SCALE_RANGE
  | SetOutputRangeCommand _ _ => SET_OUTPUT_RANGE
  | SendDigitalPinValueCommand _ => SEND_DIGITAL_PIN_VALUE
  | EnableSendingCommand _ => ENABLE_SENDING
  | SetMuteStatusCommand _ => SET_MUTE_STATUS
  | VerifyAcksCommand _ => VERIFY_ACKS
  | ReloadConfigCommand => RELOAD_CONFIG
  end.

Definition sensor_index (cmd : Command) : Z := index cmd.

(** Modelled from the spec: the status of a command (section 7), with the
    names [apply_command] returns. *)
Inductive CommandErrorCode :=
| OK | INVALID_PIN_INDEX | INVALID_VALUE | INVALID_COMMAND_FOR_PIN_TYPE
| UNINITIALIZED_PIN.

(** Modelled from the spec: the value messages. *)
Inductive Value :=
| DigitalValue (index : Z) (value : bool) (timestamp : Z)
| AnalogValue (index : Z) (value : Z) (timestamp : Z)
| ContinuousValue (index : Z) (value : float32) (timestamp : Z).

(** Modelled from the spec: an error message. *)
Record Error := { kind : CommandErrorCode; offending_command : option Command }.

(** Modelled from the spec: a message of one of the three types. *)
Inductive BaseMessage :=
| VALUE (v : Value)
| COMMAND (c : Command)
| ERROR (e : Error).

#[global] Instance CommandTag_eq_dec : EqDecision CommandTag.
Proof. solve_decision. Defined.

#[global] Instance CommandErrorCode_eq_dec : EqDecision CommandErrorCode.
Proof. solve_decision. Defined.

#[global] Instance CommandTarget_eq_dec : EqDecision CommandTarget.
Proof. solve_decision. Defined.

End message.

(** ** mapping_processor.cpp *)

Module mapping.
Import message.

(** The three mapper classes [DigitalSensorMapper], [AnalogSensorMapper]
    and [ImuMapper] behind [BaseSensorMapper]. *)
Inductive MapperKind := Digital | Analog | Imu.

#[global] Instance MapperKind_eq_dec : EqDecision MapperKind.
Proof. solve_decision. Defined.

(** The mapper classes are not among the sources: their configuration
    state, their constructors from a sensor index and their own
    [apply_command] are the interface the processor is written against.  An
    object never changes its class, so [apply_command] of a mapper updates
    the state and leaves the kind. *)
Class SensorMappers := {
  mapper_state : Type;
  mapper_new : MapperKind → Z → mapper_state;
  mapper_apply_command :
    MapperKind → mapper_state → Command → mapper_state * CommandErrorCode
}.

Section MappingProcessor.
Context `{SensorMappers}.

Record Mapper := { mapper_kind : MapperKind; mapper_config : mapper_state }.

Definition new_mapper (k : MapperKind) (sensor_index : Z) : Mapper :=
  {| mapper_kind := k; mapper_config := mapper_new k sensor_index |}.

(** [std::vector<std::unique_ptr<BaseSensorMapper>> _mappers]: [None] is
    [nullptr]. *)
Record MappingProcessor := {
  _max_n_pins : Z;
  _mappers : list (option Mapper)
}.

(** The constructor; [resize] of a negative count throws. *)
Definition MappingProcessor_new (max_n_input_pins : Z) : option MappingProcessor :=
  if max_n_input_pins <? 0 then None
  else Some {| _max_n_pins := max_n_input_pins;
               _mappers := replicate (Z.to_nat max_n_input_pins) None |}.

(** [_mappers[sensor_index]] read as a pointer.  The guard of
    [apply_command] keeps the index inside a vector of [_max_n_pins] slots;
    an index outside of the vector finds no mapper here. *)
Definition mapper_at (self : MappingProcessor) (sensor_index : Z) : option Mapper :=
  if sensor_index <? 0 then None
  else default None (_mappers self !! Z.to_nat sensor_index).

(** [_mappers[sensor_index].reset(m)], under the same guard. *)
Definition reset_mapper (self : MappingProcessor) (sensor_index : Z)
    (m : Mapper) : MappingProcessor :=
  if sensor_index <? 0 then self
  else {| _max_n_pins := _max_n_pins self;
          _mappers := <[Z.to_nat sensor_index := Some m]> (_mappers self) |}.

Definition apply_command (self : MappingProcessor) (cmd : Command)
    : MappingProcessor * CommandErrorCode :=
  let sensor_index := index cmd in
  if (sensor_index <? 0) || (sensor_index >? _max_n_pins self - 1)
  then (self, INVALID_PIN_INDEX)
  else
    match data cmd with
    | SetPinTypeCommand pin_type =>
        match pin_type with
        | DIGITAL_INPUT =>
            (reset_mapper self sensor_index (new_mapper Digital sensor_index), OK)
        | ANALOG_INPUT =>
            (reset_mapper self sensor_index (new_mapper Analog sensor_index), OK)
        | IMU_INPUT =>
            (reset_mapper self sensor_index (new_mapper Imu sensor_index), OK)
        | _ => (self, INVALID_VALUE)
        end
    | _ =>
        match mapper_at self sensor_index with
        | None => (self, UNINITIALIZED_PIN)
        | Some m =>
            let '(config, status) :=
              mapper_apply_command (mapper_kind m) (mapper_config m) cmd in
            (reset_mapper self sensor_index
               {| mapper_kind := mapper_kind m; mapper_config := config |},
             status)
        end
    end.

(** The vector has [_max_n_pins] slots: set up by the constructor, kept by
    [apply_command]. *)
Definition consistent (mp : MappingProcessor) : Prop :=
  length (_mappers mp) = Z.to_nat (_max_n_pins mp).

(** A stream of commands applied one after the other. *)
Definition apply_commands (self : MappingProcessor) (cmds : list Command)
    : MappingProcessor :=
  foldl (fun mp cmd => fst (apply_command mp cmd)) self cmds.

(** The kind of mapper a slot holds, if any. *)
Definition kind_at (self : MappingProcessor) (sensor_index : Z) : option MapperKind :=
  mapper_kind <$> mapper_at self sensor_index.

End MappingProcessor.

(** What the specification says of [SET_PIN_TYPE]: the mapper kind a pin
    type selects. *)
Definition mapper_kind_of_pin_type (t : PinType) : option MapperKind :=
  match t with
  | DIGITAL_INPUT => Some Digital
  | ANALOG_INPUT => Some Analog
  | IMU_INPUT => Some Imu
  | _ => None
  end.

(** The kind selected by the last [SET_PIN_TYPE] of a stream that names pin
    [p] with a pin type that has a mapper; [None] when there is none. *)
Fixpoint last_pin_type (p : Z) (cmds : list Command) (acc : option MapperKind)
    : option MapperKind :=
  match cmds with
  | [] => acc
  | cmd :: rest =>
      last_pin_type p rest
        (match data cmd with
         | SetPinTypeCommand t =>
             if decide (index cmd = p)
             then match mapper_kind_of_pin_type t with
                  | Some k => Some k
                  | None => acc
                  end
             else acc
         | _ => acc
         end)
  end.

End mapping.

(** ** serial_frontend_internal.h: MessageConcatenator and payload structs *)

Module serial_internal.
Import Protocol.

(** [memcpy(dst + off, src, n)] on byte arrays. *)
Definition memcpy (dst : list Z) (off : nat) (src : list Z) (n : nat) : list Z :=
  take off dst ++ take n src ++ drop (off + n) dst.

Record MessageConcatenator := {
  _waiting : bool;
  _storage : list Z               (* char[SENSEI_PAYLOAD_LENGTH * 2] *)
}.

(** The constructor sets [_waiting] only; [_storage] starts with whatever
    the memory holds. *)
Definition MessageConcatenator_new (uninitialised : list Z) : MessageConcatenator :=
  {| _waiting := false; _storage := uninitialised |}.

(** A [uint8_t] used as a condition. *)
Definition truthy (x : Z) : bool := negb (x =? 0).

(** [add]: the result is the array behind the returned pointer
    ([packet->payload] or [_storage]), [None] for [nullptr]. *)
Definition add (self : MessageConcatenator) (packet : sSenseiDataPacket)
    : MessageConcatenator * option (list Z) :=
  if negb (_waiting self) && negb (truthy (continuation packet))
  then (self, Some (payload packet))
  else if truthy (continuation packet)
  then ({| _waiting := true;
           _storage := memcpy (_storage self) 0 (payload packet)
                              SENSEI_PAYLOAD_LENGTH |}, None)
  else if _waiting self && negb (truthy (continuation packet))
  then let storage := memcpy (_storage self) SENSEI_PAYLOAD_LENGTH
                             (payload packet) SENSEI_PAYLOAD_LENGTH in
       ({| _waiting := false; _storage := storage |}, Some storage)
  else (self, None).

(** A stream of packets fed to [add]: the final object and every result. *)
Fixpoint add_all (self : MessageConcatenator) (packets : list sSenseiDataPacket)
    : MessageConcatenator * list (option (list Z)) :=
  match packets with
  | [] => (self, [])
  | packet :: rest =>
      let '(self', r) := add self packet in
      let '(self'', rs) := add_all self' rest in
      (self'', r :: rs)
  end.

(** A packet whose payload has the declared size. *)
Definition full_payload (p : sSenseiDataPacket) : Prop :=
  length (payload p) = SENSEI_PAYLOAD_LENGTH.

(** What [add] needs to know of the object: the storage has its declared
    size, and while [_waiting] its first half is the payload kept. *)
Definition holds (c : MessageConcatenator) (first_half : option (list Z)) : Prop :=
  length (_storage c) = (2 * SENSEI_PAYLOAD_LENGTH)%nat
  ∧ match first_half with
    | Some h => _waiting c = true ∧ take SENSEI_PAYLOAD_LENGTH (_storage c) = h
                ∧ length h = SENSEI_PAYLOAD_LENGTH
    | None => _waiting c = false
    end.

(** What the specification says of the concatenator: a packet with the
    continuation flag is the first half and yields nothing; a packet
    without it yields its payload, after the first half when one waits. *)
Fixpoint join_two_halves (first_half : option (list Z))
    (packets : list sSenseiDataPacket) : list (option (list Z)) :=
  match packets with
  | [] => []
  | packet :: rest =>
      if truthy (continuation packet)
      then None :: join_two_halves (Some (payload packet)) rest
      else Some (default [] first_half ++ payload packet)
           :: join_two_halves None rest
  end.

(** [struct teensy_value_msg], packed: [uint16_t pin_id; uint16_t value;
    uint8_t pin_type]. *)
Record teensy_value_msg := { pin_id : Z; value : Z; pin_type : Z }.

Definition as_teensy_value_msg (payload : list Z) : teensy_value_msg :=
  {| pin_id := le_value (slice 0 2 payload);
     value := le_value (slice 2 2 payload);
     pin_type := nth 4 payload 0 |}.

Definition teensy_value_msg_bytes (m : teensy_value_msg) : list Z :=
  le_bytes 2 (pin_id m) ++ le_bytes 2 (value m) ++ le_bytes 1 (pin_type m).

End serial_internal.

(** ** serial_frontend.cpp: the SerialFrontend class *)

Module frontend.
Import Protocol serial_frontend verification message serial_internal.

(** The declarations of sensei_serial_protocol.h and of the packet factory
    that serial_frontend.cpp uses and that are not among the sources: the
    command codes, the pin types of the wire, the two payload structs
    [teensy_digital_value_msg] and [teensy_analog_value_msg] (seen through
    the fields the code reads), the integer values of the enumerations, and
    the factory of outgoing packets, which returns a pointer. *)
Class SerialDeclarations := {
  GET_VALUE : Z;
  GET_ALL_VALUES : Z;
  ACK : Z;
  PIN_DIGITAL_INPUT : Z;
  PIN_ANALOG_INPUT : Z;
  as_teensy_digital_value_msg : list Z → teensy_value_msg;
  as_teensy_analog_value_msg : list Z → teensy_value_msg;
  int_of_PinType : PinType → Z;
  int_of_SendingMode : SendingMode → Z;
  make_set_sampling_rate_cmd : Z → float32 → option sSenseiDataPacket;
  make_config_pintype_cmd : Z → Z → Z → option sSenseiDataPacket;
  make_config_sendingmode_cmd : Z → Z → Z → option sSenseiDataPacket;
  make_config_delta_ticks_cmd : Z → Z → Z → option sSenseiDataPacket;
  make_config_bitres_cmd : Z → Z → Z → option sSenseiDataPacket;
  make_config_filter_order_cmd : Z → Z → Z → option sSenseiDataPacket;
  make_config_lowpass_cutoff_cmd : Z → Z → float32 → option sSenseiDataPacket;
  make_config_slider_threshold_cmd : Z → Z → Z → option sSenseiDataPacket;
  make_set_digital_pin_cmd : Z → Z → Z → option sSenseiDataPacket
}.

(** Modelled from the spec: the message factory (message/message_factory.h
    is not among the sources) builds the value message of the given index,
    value and timestamp. *)
Definition make_digital_value (index value timestamp : Z) : option BaseMessage :=
  Some (VALUE (DigitalValue index (truthy value) timestamp)).

(** Modelled from the spec: the same factory, for an analog value. *)
Definition make_analog_value (index value timestamp : Z) : option BaseMessage :=
  Some (VALUE (AnalogValue index value timestamp)).

Inductive running_state := RUNNING | STOPPING | STOPPED.

#[global] Instance running_state_eq_dec : EqDecision running_state.
Proof. solve_decision. Defined.

(** The members the modelled functions touch.  [_port] is the serial port
    seen from the writer: the pointers handed to [sp_nonblocking_write], in
    order, [None] for a null pointer. *)
Record SerialFrontend := {
  _in_queue : list Command;
  _out_queue : list BaseMessage;
  _read_thread_state : running_state;
  _write_thread_state : running_state;
  _connected : bool;
  _muted : bool;
  _port : list (option sSenseiDataPacket)
}.

Definition mute (self : SerialFrontend) (state : bool) : SerialFrontend :=
  {| _in_queue := _in_queue self; _out_queue := _out_queue self;
     _read_thread_state := _read_thread_state self;
     _write_thread_state := _write_thread_state self;
     _connected := _connected self; _muted := state; _port := _port self |}.

(** [_out_queue->push(m)]. *)
Definition push_out (self : SerialFrontend) (m : BaseMessage) : SerialFrontend :=
  {| _in_queue := _in_queue self; _out_queue := _out_queue self ++ [m];
     _read_thread_state := _read_thread_state self;
     _write_thread_state := _write_thread_state self;
     _connected := _connected self; _muted := _muted self; _port := _port self |}.

Section SerialFrontend.
Context `{SerialDeclarations}.

Definition create_internal_message (packet : sSenseiDataPacket) : option BaseMessage :=
  if (cmd packet =? GET_VALUE) || (cmd packet =? GET_ALL_VALUES)
  then
    let m := as_teensy_digital_value_msg (payload packet) in
    if pin_type m =? PIN_DIGITAL_INPUT
    then make_digital_value (pin_id m) (value m) (Protocol.timestamp packet)
    else if pin_type m =? PIN_ANALOG_INPUT
    then let a := as_teensy_analog_value_msg (payload packet) in
         make_analog_value (pin_id a) (value a) (Protocol.timestamp packet)
    else None
  else if cmd packet =? ACK
  then None
  else None.

(** One turn of the [while] of [read_loop], given what
    [sp_blocking_read_next] returned and left in [buffer]. *)
Definition read_loop_iteration (self : SerialFrontend) (ret : Z) (buffer : list Z)
    : SerialFrontend :=
  if ret >=? SENSEI_LENGTH_DATA_PACKET
  then
    let packet := packet_of_buffer buffer in
    if bool_decide (_muted self = false) && bool_decide (verify_message packet = false)
    then self
    else
      match create_internal_message packet with
      | Some m => push_out self m
      | None => self
      end
  else self.

(** [read_loop] over the successive results of the blocking read, as long
    as the thread state is [RUNNING]. *)
Definition read_loop (self : SerialFrontend) (reads : list (Z * list Z))
    : SerialFrontend :=
  foldl (fun fe '(ret, buffer) =>
           if decide (_read_thread_state fe = RUNNING)
           then read_loop_iteration fe ret buffer
           else fe) self reads.

(** [create_send_command]: the [switch] on the tag, each [case] casting the
    message to the class of its tag.  The [assert] on [is_cmd] holds of
    every [Command]. *)
Definition create_send_command (message : Command) : option sSenseiDataPacket :=
  match data message with
  | SetSamplingRateCommand d =>
      make_set_sampling_rate_cmd (message.timestamp message) d
  | SetPinTypeCommand d =>
      make_config_pintype_cmd (sensor_index message) (message.timestamp message)
                              (int_of_PinType d)
  | SetSendingModeCommand d =>
      make_config_sendingmode_cmd (sensor_index message) (message.timestamp message)
                                  (int_of_SendingMode d)
  | SetSendingDeltaTicksCommand d =>
      make_config_delta_ticks_cmd (sensor_index message) (message.timestamp message) d
  | SetADCBitResolutionCommand d =>
      make_config_bitres_cmd (sensor_index message) (message.timestamp message) d
  | SetLowpassFilterOrderCommand d =>
      make_config_filter_order_cmd (sensor_index message) (message.timestamp message) d
  | SetLowpassCutoffCommand d =>
      make_config_lowpass_cutoff_cmd (sensor_index message) (message.timestamp message) d
  | SetSliderThresholdCommand d =>
      make_config_slider_threshold_cmd (sensor_index message) (message.timestamp message) d
  | SendDigitalPinValueCommand d =>
      make_set_digital_pin_cmd (sensor_index message) (message.timestamp message) d
  | _ => None
  end.

(** One turn of the [while] of [write_loop], after [wait_for_data]
    returned. *)
Definition write_loop_iteration (self : SerialFrontend) : SerialFrontend :=
  match _in_queue self with
  | [] => self
  | message :: rest =>
      let packet := create_send_command message in
      {| _in_queue := rest; _out_queue := _out_queue self;
         _read_thread_state := _read_thread_state self;
         _write_thread_state := _write_thread_state self;
         _connected := _connected self; _muted := _muted self;
         _port := _port self ++ [packet] |}
  end.

End SerialFrontend.

(** The tags with a [case] in [create_send_command]. *)
Definition has_send_case (t : CommandTag) : bool :=
  match t with
  | SET_SAMPLING_RATE | SET_PIN_TYPE | SET_SENDING_MODE | SET_SENDING_DELTA_TICKS
  | SET_ADC_BIT_RESOLUTION | SET_LOWPASS_FILTER_ORDER | SET_LOWPASS_CUTOFF
  | SET_SLIDER_THRESHOLD | SEND_DIGITAL_PIN_VALUE => true
  | _ => false
  end.

End frontend.

(** ** mapping_processor.cpp: process, and event_handler.h *)

Module event_handler.
Import message mapping.

(** What a mapper does with a value is not among the sources: it updates
    its state and sends zero or more values to the output backend. *)
Class ValueMappers `{SensorMappers} := {
  mapper_process : MapperKind → mapper_state → Value → mapper_state * list Value
}.

Section EventHandler.
Context `{ValueMappers}.

Definition value_index (v : Value) : Z :=
  match v with
  | DigitalValue i _ _ | AnalogValue i _ _ | ContinuousValue i _ _ => i
  end.

(** [MappingProcessor::process]; the output backend is the list of the
    values sent to it.  The source reads [_mappers[sensor_index]] with no
    test of the index: outside of the vector (a negative index, or one past
    the last slot) the read is out of bounds and the call has no defined
    result, which is [None] here.  Inside the vector a null slot logs and
    leaves everything as it is, and a mapper processes the value. *)
Definition process (self : MappingProcessor) (value : Value) (backend : list Value)
    : option (MappingProcessor * list Value) :=
  let sensor_index := value_index value in
  if sensor_index <? 0 then None
  else
    match _mappers self !! Z.to_nat sensor_index with
    | None => None
    | Some None => Some (self, backend)
    | Some (Some m) =>
        let '(config, sent) := mapper_process (mapper_kind m) (mapper_config m) value in
        Some (reset_mapper self sensor_index
                {| mapper_kind := mapper_kind m; mapper_config := config |},
              backend ++ sent)
    end.

(** Modelled from the spec: the configuration backend
    (config_backend/base_configuration.h is not among the sources).  Its
    source enumerates the transport choice and the per-pin configuration;
    the configuration loader produces command messages that the event
    handler consumes (sections 2, 3 and 6), so [read] fills the hardware
    frontend configuration it is given and pushes the commands of the
    source onto the event queue.  Parsing is out of scope: a source is what
    it parses to. *)
Record HwFrontendConfig := { transport : Z }.

(** Modelled from the spec: what a configuration source parses to. *)
Record ConfigSource := {
  source_hw_frontend : HwFrontendConfig;
  source_commands : list Command
}.

(** Modelled from the spec: [BaseConfiguration::read], on the event queue
    the backend pushes to. *)
Definition read (source : ConfigSource) (hwc : HwFrontendConfig)
    (event_queue : list BaseMessage) : HwFrontendConfig * list BaseMessage :=
  (source_hw_frontend source, event_queue ++ (COMMAND <$> source_commands source)).

(** The members of [EventHandler]: the two queues and the sub-components.
    The hardware frontend is seen through the two switches the handler
    sets, the output backend through the values sent to it, the
    configuration backend through its source as it is when read, and the
    log through the errors written to it. *)
Record EventHandler := {
  _to_frontend_queue : list Command;
  _event_queue : list BaseMessage;
  _hw_frontend : bool * bool;             (* muted, verify_acks *)
  _processor : MappingProcessor;
  _output_backend : list Value;
  _config_backend : ConfigSource;
  _log : list Error
}.

Definition set_event_queue (self : EventHandler) (q : list BaseMessage) : EventHandler :=
  {| _to_frontend_queue := _to_frontend_queue self; _event_queue := q;
     _hw_frontend := _hw_frontend self; _processor := _processor self;
     _output_backend := _output_backend self;
     _config_backend := _config_backend self; _log := _log self |}.

(** [reload_config]: a local [hwc], filled by [read] and dropped.  The
    configuration backend works on the source it was constructed over and
    on the event queue of the handler. *)
Definition reload_config (self : EventHandler) : EventHandler :=
  let hwc := {| transport := 0 |} in
  let '(_, event_queue) := read (_config_backend self) hwc (_event_queue self) in
  set_event_queue self event_queue.

(** Modelled from the spec: [_handle_command], [_handle_value],
    [_handle_error] and [handle_events] are declared in event_handler.h and
    defined in a file that is not among the sources.  Routing (section
    4.2): a command goes to the mapping processor, to the to-frontend queue
    or to the state of the handler, by its target; a value goes to the
    mapping processor with the output backend; an error is logged; an error
    code of a component becomes a logged error. *)
Definition _handle_command (self : EventHandler) (cmd : Command) : EventHandler :=
  match target cmd with
  | MAPPING =>
      let '(processor, status) := apply_command (_processor self) cmd in
      {| _to_frontend_queue := _to_frontend_queue self;
         _event_queue := _event_queue self;
         _hw_frontend := _hw_frontend self; _processor := processor;
         _output_backend := _output_backend self;
         _config_backend := _config_backend self;
         _log := if decide (status = OK) then _log self
                 else _log self ++ [{| kind := status; offending_command := Some cmd |}] |}
  | HW_FRONTEND =>
      {| _to_frontend_queue := _to_frontend_queue self ++ [cmd];
         _event_queue := _event_queue self;
         _hw_frontend := _hw_frontend self; _processor := _processor self;
         _output_backend := _output_backend self;
         _config_backend := _config_backend self; _log := _log self |}
  | INTERNAL =>
      match data cmd with
      | SetMuteStatusCommand b =>
          {| _to_frontend_queue := _to_frontend_queue self;
             _event_queue := _event_queue self;
             _hw_frontend := (b, snd (_hw_frontend self));
             _processor := _processor self;
             _output_backend := _output_backend self;
             _config_backend := _config_backend self; _log := _log self |}
      | VerifyAcksCommand b =>
          {| _to_frontend_queue := _to_frontend_queue self;
             _event_queue := _event_queue self;
             _hw_frontend := (fst (_hw_frontend self), b);
             _processor := _processor self;
             _output_backend := _output_backend self;
             _config_backend := _config_backend self; _log := _log self |}
      | ReloadConfigCommand => reload_config self
      | _ => self
      end
  end.

(** Modelled from the spec: a value goes to the mapping processor with the
    output backend; a value for a pin the processor does not have, for
    which [process] has no result, is logged and dropped, as section 7 says
    of an unknown pin. *)
Definition _handle_value (self : EventHandler) (value : Value) : EventHandler :=
  match process (_processor self) value (_output_backend self) with
  | Some (processor, backend) =>
      {| _to_frontend_queue := _to_frontend_queue self;
         _event_queue := _event_queue self;
         _hw_frontend := _hw_frontend self; _processor := processor;
         _output_backend := backend;
         _config_backend := _config_backend self; _log := _log self |}
  | None =>
      {| _to_frontend_queue := _to_frontend_queue self;
         _event_queue := _event_queue self;
         _hw_frontend := _hw_frontend self; _processor := _processor self;
         _output_backend := _output_backend self;
         _config_backend := _config_backend self;
         _log := _log self ++ [{| kind := INVALID_PIN_INDEX; offending_command := None |}] |}
  end.

(** Modelled from the spec: an error is logged. *)
Definition _handle_error (self : EventHandler) (error : Error) : EventHandler :=
  {| _to_frontend_queue := _to_frontend_queue self;
     _event_queue := _event_queue self;
     _hw_frontend := _hw_frontend self; _processor := _processor self;
     _output_backend := _output_backend self;
     _config_backend := _config_backend self; _log := _log self ++ [error] |}.

(** Modelled from the spec: routing by the type of the message. *)
Definition dispatch (self : EventHandler) (m : BaseMessage) : EventHandler :=
  match m with
  | VALUE v => _handle_value self v
  | COMMAND c => _handle_command self c
  | ERROR e => _handle_error self e
  end.

(** Modelled from the spec: [handle_events].  One call drains the messages
    that wait in the event queue, in order; what the handling itself
    enqueues waits for the next call. *)
Definition handle_events (self : EventHandler) : EventHandler :=
  foldl dispatch (set_event_queue self []) (_event_queue self).

End EventHandler.

(** The commands of a stream addressed to the mapping processor and to the
    hardware frontend. *)
Definition mapping_commands (cmds : list Command) : list Command :=
  filter (fun c => target c = MAPPING) cmds.

Definition frontend_commands (cmds : list Command) : list Command :=
  filter (fun c => target c = HW_FRONTEND) cmds.

End event_handler.

(** ** Concrete inputs *)

Module samples.
Import Protocol serial_frontend verification message mapping serial_internal
       frontend event_handler.

(** [test_msg] with the bytes of its start header in another order. *)
Definition permuted_header_msg : list Z := [0x3; 0x2; 0x1] ++ drop 3 test_msg.

Definition permuted_header_packet : sSenseiDataPacket :=
  packet_of_buffer permuted_header_msg.

(** A stand-in for the mapper classes: a mapper records the tags applied to
    it; a digital mapper has no ADC resolution. *)
#[global] Instance recording_mappers : SensorMappers := {|
  mapper_state := list CommandTag;
  mapper_new := fun _ _ => [];
  mapper_apply_command := fun k st cmd =>
    match k, tag cmd with
    | Digital, SET_ADC_BIT_RESOLUTION => (st, INVALID_COMMAND_FOR_PIN_TYPE)
    | _, t => (st ++ [t], OK)
    end
|}.

#[global] Instance recording_value_mappers : ValueMappers := {|
  mapper_process := fun _ st v => (st, [v])
|}.

(** A stand-in for the missing declarations: both value structs laid out as
    [teensy_value_msg], a factory that returns an empty packet with the
    pin index as command code. *)
Definition empty_packet (c : Z) : sSenseiDataPacket :=
  {| start_header := START_SIGNATURE; cmd := c; sub_cmd := 0;
     payload := replicate SENSEI_PAYLOAD_LENGTH 0; continuation := 0;
     Protocol.timestamp := 0; crc := c; stop_header := STOP_SIGNATURE |}.

#[global] Instance sample_declarations : SerialDeclarations := {|
  GET_VALUE := 102;
  GET_ALL_VALUES := 103;
  ACK := 255;
  PIN_DIGITAL_INPUT := 1;
  PIN_ANALOG_INPUT := 3;
  as_teensy_digital_value_msg := as_teensy_value_msg;
  as_teensy_analog_value_msg := as_teensy_value_msg;
  int_of_PinType := fun t =>
    match t with
    | DISABLED => 0 | DIGITAL_INPUT => 1 | ANALOG_INPUT => 3 | IMU_INPUT => 6
    | PinType_unknown raw => raw
    end;
  int_of_SendingMode := fun m =>
    match m with
    | ON_VALUE_CHANGED => 0 | CONTINUOUS => 1 | ON_PRESS => 2 | ON_RELEASE => 3
    end;
  make_set_sampling_rate_cmd := fun _ _ => Some (empty_packet 0);
  make_config_pintype_cmd := fun i _ _ => Some (empty_packet i);
  make_config_sendingmode_cmd := fun i _ _ => Some (empty_packet i);
  make_config_delta_ticks_cmd := fun i _ _ => Some (empty_packet i);
  make_config_bitres_cmd := fun i _ _ => Some (empty_packet i);
  make_config_filter_order_cmd := fun i _ _ => Some (empty_packet i);
  make_config_lowpass_cutoff_cmd := fun i _ _ => Some (empty_packet i);
  make_config_slider_threshold_cmd := fun i _ _ => Some (empty_packet i);
  make_set_digital_pin_cmd := fun i _ _ => Some (empty_packet i)
|}.

(** The packet of [test_process_serial_packet]: an analog value of pin 12,
    value 35, at time 1234, sent under [GET_VALUE].  Its header and
    checksum fields are left as the test leaves them: not set. *)
Definition analog_value_packet : sSenseiDataPacket :=
  {| start_header := {| vByte := [0; 0; 0] |};
     cmd := 102; sub_cmd := 0;
     payload := teensy_value_msg_bytes {| pin_id := 12; value := 35; pin_type := 3 |}
                ++ replicate 44 0;
     continuation := 0; Protocol.timestamp := 1234; crc := 0;
     stop_header := {| vByte := [0; 0; 0] |} |}.

Definition analog_value_buffer : list Z :=
  packet_memory analog_value_packet ++ replicate 36 0.

Definition idle_frontend : SerialFrontend :=
  {| _in_queue := []; _out_queue := [];
     _read_thread_state := RUNNING; _write_thread_state := RUNNING;
     _connected := true; _muted := false; _port := [] |}.

Definition command (i : Z) (t : CommandTarget) (d : CommandData) : Command :=
  {| index := i; message.timestamp := 0; target := t; data := d |}.

(** A processor of 16 pins and a configuration stream for it. *)
Definition sixteen_pins : MappingProcessor :=
  {| _max_n_pins := 16; _mappers := replicate 16 None |}.

Definition sample_stream : list Command :=
  [ command 12 MAPPING (SetPinTypeCommand ANALOG_INPUT);
    command 12 MAPPING (SetSendingModeCommand CONTINUOUS);
    command 3 MAPPING (SetPinTypeCommand DIGITAL_INPUT);
    command 3 MAPPING (SetADCBitResolutionCommand 10);
    command 12 MAPPING (SetPinTypeCommand DISABLED);
    command 16 MAPPING (SetPinTypeCommand IMU_INPUT);
    command 3 HW_FRONTEND (SetPinTypeCommand DIGITAL_INPUT);
    command 5 MAPPING (SetInvertEnabledCommand true) ].

(** Two halves of a payload and a payload sent in one piece. *)
Definition first_half : sSenseiDataPacket :=
  {| start_header := START_SIGNATURE; cmd := 102; sub_cmd := 0;
     payload := replicate SENSEI_PAYLOAD_LENGTH 7; continuation := 1;
     Protocol.timestamp := 1; crc := 0; stop_header := STOP_SIGNATURE |}.

Definition second_half : sSenseiDataPacket :=
  {| start_header := START_SIGNATURE; cmd := 102; sub_cmd := 0;
     payload := replicate SENSEI_PAYLOAD_LENGTH 9; continuation := 0;
     Protocol.timestamp := 2; crc := 0; stop_header := STOP_SIGNATURE |}.

Definition stale_storage : list Z := replicate (2 * SENSEI_PAYLOAD_LENGTH) 0xAA.

(** A frontend with one command waiting in its in-queue. *)
Definition frontend_with (c : Command) : SerialFrontend :=
  {| _in_queue := [c]; _out_queue := [];
     _read_thread_state := RUNNING; _write_thread_state := RUNNING;
     _connected := true; _muted := false; _port := [] |}.

(** An event handler at rest whose configuration source holds
    [sample_stream]. *)
Definition handler_at_rest : EventHandler :=
  {| _to_frontend_queue := []; _event_queue := [];
     _hw_frontend := (false, false); _processor := sixteen_pins;
     _output_backend := [];
     _config_backend := {| source_hw_frontend := {| transport := 1 |};
                           source_commands := sample_stream |};
     _log := [] |}.

End samples.

(** ** serial_frontend_internal.h: extract_uuid *)

Module uuid.
Import Protocol.

Definition to_uint64 (x : Z) : Z := x mod 2 ^ 64.

(** Modelled from the spec: [sSenseiACKPacket] is declared in the missing
    sensei_serial_protocol.h; these are the fields [extract_uuid] reads,
    an unsigned 32-bit timestamp and the two command bytes the
    acknowledgement answers. *)
Record sSenseiACKPacket := {
  ack_timestamp : Z;              (* uint32_t *)
  ack_cmd       : Z;              (* uint8_t  *)
  ack_sub_cmd   : Z               (* uint8_t  *)
}.

(** The body shared by the two overloads: [uuid] is a [uint64_t], the
    bytes are cast to [uint64_t] before the shift. *)
Definition uuid_of (timestamp cmd sub_cmd : Z) : Z :=
  let uuid := to_uint64 timestamp in
  let uuid := to_uint64 (uuid + to_uint64 (Z.shiftl (to_uint64 cmd) 32)) in
  let uuid := to_uint64 (uuid + to_uint64 (Z.shiftl (to_uint64 sub_cmd) 48)) in
  uuid.

(** [extract_uuid] of an acknowledgement packet. *)
Definition extract_uuid_ack (ack : sSenseiACKPacket) : Z :=
  uuid_of (ack_timestamp ack) (ack_cmd ack) (ack_sub_cmd ack).

(** [extract_uuid] of a data packet. *)
Definition extract_uuid (packet : sSenseiDataPacket) : Z :=
  uuid_of (timestamp packet) (cmd packet) (sub_cmd packet).

(** The fields [extract_uuid] reads hold values of their types. *)
Definition uuid_fields (timestamp cmd sub_cmd : Z) : Prop :=
  0 ≤ timestamp < 2 ^ 32 ∧ 0 ≤ cmd < 2 ^ 8 ∧ 0 ≤ sub_cmd < 2 ^ 8.

End uuid.

(** ** serial_frontend.cpp: constructor, run, stop and the two threads *)

Module lifecycle.
Import Protocol serial_frontend verification message serial_internal frontend.

(** The constructor: both threads stopped, not connected, not muted.
    [setup_port] works on the handle of the port only and its result is
    dropped; nothing has been written to the port yet. *)
Definition SerialFrontend_new (in_queue : list Command)
    (out_queue : list BaseMessage) : SerialFrontend :=
  {| _in_queue := in_queue; _out_queue := out_queue;
     _read_thread_state := STOPPED; _write_thread_state := STOPPED;
     _connected := false; _muted := false; _port := [] |}.

Definition connected (self : SerialFrontend) : bool := _connected self.

Definition change_state (self : SerialFrontend) (state : running_state)
    : SerialFrontend :=
  {| _in_queue := _in_queue self; _out_queue := _out_queue self;
     _read_thread_state := state; _write_thread_state := state;
     _connected := _connected self; _muted := _muted self; _port := _port self |}.

(** [run]: the two threads are created; their turns are the calls
    [reader_turn] and [writer_turn] below. *)
Definition run (self : SerialFrontend) : SerialFrontend :=
  if bool_decide (_read_thread_state self ≠ RUNNING)
     && bool_decide (_write_thread_state self ≠ RUNNING)
  then change_state self RUNNING
  else self.

(** The end of [read_loop] and of [write_loop], after the [while]. *)
Definition reader_exit (self : SerialFrontend) : SerialFrontend :=
  {| _in_queue := _in_queue self; _out_queue := _out_queue self;
     _read_thread_state := STOPPED;
     _write_thread_state := _write_thread_state self;
     _connected := _connected self; _muted := _muted self; _port := _port self |}.

Definition writer_exit (self : SerialFrontend) : SerialFrontend :=
  {| _in_queue := _in_queue self; _out_queue := _out_queue self;
     _read_thread_state := _read_thread_state self;
     _write_thread_state := STOPPED;
     _connected := _connected self; _muted := _muted self; _port := _port self |}.

(** What every call on a frontend keeps: the connection flag, what is
    already in the out queue and written to the port, and the order of
    the in queue. *)
Record stable (before after : SerialFrontend) : Prop := {
  keeps_connected : _connected after = _connected before;
  out_queue_grows : _out_queue before `prefix_of` _out_queue after;
  in_queue_shrinks : _in_queue after `suffix_of` _in_queue before;
  port_grows : _port before `prefix_of` _port after
}.

Section Lifecycle.
Context `{SerialDeclarations}.

(** [stop]: the state goes to [STOPPING] and the threads are joined.  Each
    loop tests the state at the head of its [while] only: the reader may
    be in its blocking read, and it then finishes that turn with what the
    read returns ([last_read]); the writer may be waiting for data, and it
    then finishes that turn ([last_write]).  Then each loop leaves its
    [while] and stores [STOPPED]. *)
Definition stop (self : SerialFrontend) (last_read : option (Z * list Z))
    (last_write : bool) : SerialFrontend :=
  if bool_decide (_read_thread_state self ≠ RUNNING)
     || bool_decide (_write_thread_state self ≠ RUNNING)
  then self
  else
    let self := change_state self STOPPING in
    let self := match last_read with
                | Some (ret, buffer) => read_loop_iteration self ret buffer
                | None => self
                end in
    let self := reader_exit self in
    let self := if last_write then write_loop_iteration self else self in
    writer_exit self.

(** What happens to a frontend: calls of its public functions by the
    event handler, and turns of the loops of its two threads, which run
    while the state they test is [RUNNING]. *)
Inductive call :=
| call_run
| call_stop (last_read : option (Z * list Z)) (last_write : bool)
| call_mute (state : bool)
| reader_turn (ret : Z) (buffer : list Z)
| writer_turn.

Definition step (self : SerialFrontend) (c : call) : SerialFrontend :=
  match c with
  | call_run => run self
  | call_stop last_read last_write => stop self last_read last_write
  | call_mute state => mute self state
  | reader_turn ret buffer =>
      if decide (_read_thread_state self = RUNNING)
      then read_loop_iteration self ret buffer
      else self
  | writer_turn =>
      if decide (_write_thread_state self = RUNNING)
      then write_loop_iteration self
      else self
  end.

Definition steps (self : SerialFrontend) (calls : list call) : SerialFrontend :=
  foldl step self calls.

(** [n] turns of the writer. *)
Definition writer_turns (n : nat) (self : SerialFrontend) : SerialFrontend :=
  Nat.iter n write_loop_iteration self.

(** The message of a packet that passes the read loop of an unmuted
    frontend. *)
Definition accepted_message (r : Z * list Z) : option BaseMessage :=
  if (r.1 >=? SENSEI_LENGTH_DATA_PACKET) && verify_message (packet_of_buffer r.2)
  then create_internal_message (packet_of_buffer r.2)
  else None.

End Lifecycle.

(** The argument of the last [call_mute] of a trace, [start] when there is
    none. *)
Definition last_mute (start : bool) (calls : list call) : bool :=
  foldl (fun m c => match c with call_mute state => state | _ => m end)
        start calls.

End lifecycle.

(** ** mapping_processor.cpp: put_config_commands_into *)

Module config_commands.
Import message mapping.

(** The commands a mapper puts out for its configuration are not among the
    sources: they are part of the interface of the mapper classes. *)
Class ConfigMappers `{SensorMappers} := {
  mapper_put_config_commands : MapperKind → mapper_state → list Command
}.

Section PutConfigCommands.
Context `{ConfigMappers}.

(** What one slot contributes: nothing for [nullptr]. *)
Definition slot_config_commands (slot : option Mapper) : list Command :=
  match slot with
  | Some m => mapper_put_config_commands (mapper_kind m) (mapper_config m)
  | None => []
  end.

(** [put_config_commands_into]: the output iterator appends to the
    commands already put out ([out]). *)
Definition put_config_commands_into (self : MappingProcessor) (out : list Command)
    : list Command :=
  foldl (fun out slot => out ++ slot_config_commands slot) out (_mappers self).

(** A mapper that puts out its own configuration: first a SET_PIN_TYPE
    of its pin with the pin type of its class, then commands of other tags
    for the same pin. *)
Definition own_configuration (i : Z) (m : Mapper) (cmds : list Command) : Prop :=
  ∃ first rest t,
    cmds = first :: rest
    ∧ index first = i
    ∧ data first = SetPinTypeCommand t
    ∧ mapper_kind_of_pin_type t = Some (mapper_kind m)
    ∧ Forall (fun c => index c = i ∧ tag c ≠ SET_PIN_TYPE) rest.

End PutConfigCommands.

End config_commands.

(** ** Packets damaged on the wire *)

Module damage.
Import Protocol.

(** A packet with other bytes in its payload array, all its other fields
    as they are. *)
Definition with_payload (p : sSenseiDataPacket) (bytes : list Z) : sSenseiDataPacket :=
  {| start_header := start_header p; cmd := cmd p; sub_cmd := sub_cmd p;
     payload := bytes; continuation := continuation p;
     timestamp := timestamp p; crc := crc p; stop_header := stop_header p |}.

End damage.

(** ** More concrete inputs *)

Module more_samples.
Import Protocol serial_frontend verification message mapping serial_internal
       frontend event_handler samples uuid lifecycle config_commands damage.

(** The acknowledgement carried by [test_msg]: timestamp 908, for command
    100, sub-command 1. *)
Definition test_ack : sSenseiACKPacket :=
  {| ack_timestamp := 908; ack_cmd := 100; ack_sub_cmd := 1 |}.

(** The command [test_ack] answers. *)
Definition acked_packet : sSenseiDataPacket :=
  {| start_header := START_SIGNATURE; cmd := 100; sub_cmd := 1;
     payload := replicate SENSEI_PAYLOAD_LENGTH 0; continuation := 0;
     Protocol.timestamp := 908; crc := 100 + 1 + 140 + 3;
     stop_header := STOP_SIGNATURE |}.

(** [test_packet] with two bytes of its payload exchanged. *)
Definition swapped_payload_packet : sSenseiDataPacket :=
  with_payload test_packet ([0; 0; 0; 0; 3; 140] ++ drop 6 (payload test_packet)).

(** [test_packet] with one byte of its payload changed. *)
Definition damaged_payload_packet : sSenseiDataPacket :=
  with_payload test_packet ([0; 0; 0; 0; 141] ++ drop 5 (payload test_packet)).

(** A valid digital value packet: pin 7, value 1, at time 99. *)
Definition digital_value_packet : sSenseiDataPacket :=
  {| start_header := START_SIGNATURE; cmd := 103; sub_cmd := 0;
     payload := teensy_value_msg_bytes {| pin_id := 7; value := 1; pin_type := 1 |}
                ++ replicate 44 0;
     continuation := 0; Protocol.timestamp := 99; crc := 103 + 7 + 1 + 1 + 99;
     stop_header := STOP_SIGNATURE |}.

Definition digital_value_buffer : list Z :=
  packet_memory digital_value_packet ++ replicate 36 0.

(** A trace of a frontend: started, muted, fed, stopped during a read. *)
Definition sample_calls : list call :=
  [ call_run; call_run; reader_turn 64 digital_value_buffer;
    call_mute true; writer_turn; reader_turn 10 digital_value_buffer;
    call_mute false;
    call_stop (Some (64, digital_value_buffer)) true;
    reader_turn 64 digital_value_buffer; call_stop None false ].

Definition sample_in_queue : list Command :=
  [ command 4 HW_FRONTEND (SetPinTypeCommand ANALOG_INPUT);
    command 4 HW_FRONTEND (SetInvertEnabledCommand true);
    command 5 HW_FRONTEND (SetSendingDeltaTicksCommand 10) ].

(** A stand-in for the configuration a mapper puts out: its pin type, then
    an enable command, for pin 12 whatever the mapper. *)
#[global] Instance recording_config_mappers : ConfigMappers := {|
  mapper_put_config_commands := fun k st =>
    [ command 12 MAPPING
        (SetPinTypeCommand match k with
                           | Digital => DIGITAL_INPUT
                           | Analog => ANALOG_INPUT
                           | Imu => IMU_INPUT
                           end);
      command 12 MAPPING (EnableSendingCommand true) ]
|}.

(** A processor with one configured pin. *)
Definition one_pin_configured : MappingProcessor :=
  apply_commands sixteen_pins
    [ command 12 MAPPING (SetPinTypeCommand ANALOG_INPUT);
      command 12 MAPPING (SetSendingModeCommand CONTINUOUS) ].

End more_samples.

(** * Properties *)

Import Protocol serial_frontend verification message mapping serial_internal
       frontend event_handler samples.
Import uuid lifecycle config_commands damage more_samples.

(** ** Wire format *)

(** The layout is the one the test of the repository relies on:
    [TEST (TestHelperFunctions, test_verify_message)]. *)
Example test_verify_message : verify_message test_packet = true.
Proof. reflexivity. Qed.

Example test_packet_memory : packet_memory test_packet = test_msg.
Proof. reflexivity. Qed.

(** Were the fields laid out in the order the specification lists them,
    [continuation] and [timestamp] before [payload], the scan of
    [calculate_crc] would start at byte 10 of the vector, run over the
    [crc] field and the stop header, and not give the value of [crc]. *)
Example listed_order_rejects_test_msg :
  to_uint16 (nth 3 test_msg 0 + nth 4 test_msg 0
             + sum_bytes (slice 10 (SENSEI_PAYLOAD_LENGTH + sizeof_continuation
                                    + sizeof_timestamp) test_msg))
  ≠ le_value (slice 59 sizeof_crc test_msg).
Proof. discriminate. Qed.

Lemma sum_bytes_take_S (x : list Z) (i n : nat) :
  sum_bytes (take (S n) (drop i x)) = nth i x 0 + sum_bytes (take n (drop (S i) x)).
Proof.
  revert i. induction x as [|a x IHx]; intros [|i]; simpl.
  - destruct n; reflexivity.
  - destruct n; reflexivity.
  - rewrite drop_0. reflexivity.
  - apply (IHx i).
Qed.

Lemma for_loop_compare (l r : list Z) (i n : nat) (diff : Z) :
  for_loop (fun i diff => diff + (nth i l 0 - nth i r 0)) i n diff
  = diff + (sum_bytes (take n (drop i l)) - sum_bytes (take n (drop i r))).
Proof.
  revert i diff. induction n as [|n IH]; intros i diff.
  - simpl. lia.
  - cbn [for_loop]. rewrite IH, !sum_bytes_take_S. lia.
Qed.

(** What [compare_packet_header] computes: the difference of the byte sums
    of the two headers. *)
Lemma compare_packet_header_sums (lhv rhv : PACKET_HEADER) :
  compare_packet_header lhv rhv
  = sum_bytes (take SENSEI_LENGTH_HEADER (vByte lhv))
    - sum_bytes (take SENSEI_LENGTH_HEADER (vByte rhv)).
Proof.
  unfold compare_packet_header. rewrite for_loop_compare, !drop_0. lia.
Qed.

(** The direction of the specification's equivalence that holds: a packet
    with both signatures and a matching checksum is accepted. *)
Lemma verify_message_complete (p : sSenseiDataPacket) :
  start_header p = START_SIGNATURE → stop_header p = STOP_SIGNATURE →
  calculate_crc p = crc p → verify_message p = true.
Proof.
  intros Hs He Hc. unfold verify_message.
  apply Z.eqb_eq in Hc. rewrite Hs, He, Hc. reflexivity.
Qed.

(** What [verify_message] decides: equal byte sums of the headers and of
    the signatures, and a matching checksum. *)
Lemma verify_message_sums (p : sSenseiDataPacket) :
  verify_message p = true
  ↔ sum_bytes (take SENSEI_LENGTH_HEADER (vByte (start_header p))) = 1 + 2 + 3
    ∧ sum_bytes (take SENSEI_LENGTH_HEADER (vByte (stop_header p))) = 4 + 5 + 6
    ∧ calculate_crc p = crc p.
Proof.
  unfold verify_message. rewrite !compare_packet_header_sums.
  change (sum_bytes (take SENSEI_LENGTH_HEADER (vByte START_SIGNATURE))) with 6.
  change (sum_bytes (take SENSEI_LENGTH_HEADER (vByte STOP_SIGNATURE))) with 15.
  destruct (Z.eqb_spec (sum_bytes (take SENSEI_LENGTH_HEADER
                                     (vByte (start_header p))) - 6) 0) as [Hs|Hs];
  destruct (Z.eqb_spec (sum_bytes (take SENSEI_LENGTH_HEADER
                                     (vByte (stop_header p))) - 15) 0) as [He|He];
  destruct (Z.eqb_spec (calculate_crc p) (crc p)) as [Hc|Hc]; simpl;
    split; try discriminate; try (intros _; repeat split; lia);
    intros (H1 & H2 & H3); try lia; contradiction.
Qed.

(** C1 (verify_message accepts exactly the packets with both magic
    headers and a matching checksum).  The code does not: the packet
    [permuted_header_msg] is the accepted test vector with start header
    [03 02 01] in place of [01 02 03]; its start header differs from the
    start signature, and [verify_message] returns [true] for it, because
    [compare_packet_header] adds up the byte differences instead of
    stopping at the first one as [memcmp] does. *)
Theorem verify_message_accepts_permuted_header :
  well_formed permuted_header_packet
  ∧ start_header permuted_header_packet ≠ START_SIGNATURE
  ∧ stop_header permuted_header_packet = STOP_SIGNATURE
  ∧ calculate_crc permuted_header_packet = crc permuted_header_packet
  ∧ compare_packet_header (start_header permuted_header_packet) START_SIGNATURE = 0
  ∧ verify_message permuted_header_packet = true.
Proof.
  split.
  { split; try reflexivity.
    apply (bool_decide_unpack _). vm_compute. exact I. }
  split; [discriminate|]. repeat split.
Qed.

(** ** Checksum *)

Lemma sum_bytes_app (l r : list Z) :
  sum_bytes (l ++ r) = sum_bytes l + sum_bytes r.
Proof. unfold sum_bytes. induction l as [|a l IH]; simpl; lia. Qed.

Lemma to_uint16_add_l (a b : Z) : to_uint16 (to_uint16 a + b) = to_uint16 (a + b).
Proof. unfold to_uint16. apply Zplus_mod_idemp_l. Qed.

(** The loop of [calculate_crc] from index [i] with [sum] already a
    [uint16_t]: the wrap-around at each step amounts to one at the end. *)
Lemma for_loop_crc (mem : list Z) (n i : nat) (a : Z) :
  for_loop (fun i sum => to_uint16 (sum + nth i mem 0)) i n (to_uint16 a)
  = to_uint16 (a + sum_bytes (take n (drop i mem))).
Proof.
  revert i a. induction n as [|n IH]; intros i a.
  - simpl. f_equal. lia.
  - cbn [for_loop]. rewrite to_uint16_add_l, IH, sum_bytes_take_S.
    f_equal. lia.
Qed.

Lemma le_bytes_length (n : nat) (x : Z) : length (le_bytes n x) = n.
Proof. revert x. induction n as [|n IH]; intros x; simpl; [|rewrite IH]; reflexivity. Qed.

(** The bytes [calculate_crc] scans are those of the three fields. *)
Lemma scanned_memory (p : sSenseiDataPacket) :
  length (payload p) = SENSEI_PAYLOAD_LENGTH →
  take (SENSEI_PAYLOAD_LENGTH + sizeof_continuation + sizeof_timestamp)
       (memory_from_payload p)
  = payload p ++ le_bytes sizeof_continuation (continuation p)
              ++ le_bytes sizeof_timestamp (Protocol.timestamp p).
Proof.
  intros Hlen. unfold memory_from_payload.
  rewrite <- Nat.add_assoc, take_app_add'; [|symmetry; exact Hlen].
  rewrite take_app_add'; [|symmetry; apply le_bytes_length].
  rewrite take_app_length'; [reflexivity | symmetry; apply le_bytes_length].
Qed.

(** C2 (calculate_crc is the unsigned 16-bit sum of cmd, sub_cmd and every
    byte of continuation, timestamp and payload, and depends on these
    fields only).  For every packet with a payload of
    [SENSEI_PAYLOAD_LENGTH] bytes, [calculate_crc] is the sum modulo 2^16
    of [cmd], [sub_cmd], the byte of [continuation], the four bytes of
    [timestamp] and the bytes of [payload]; two such packets that agree on
    these five fields have the same checksum, whatever their headers and
    their [crc] field hold. *)
Theorem calculate_crc_sum (p : sSenseiDataPacket) :
  length (payload p) = SENSEI_PAYLOAD_LENGTH →
  calculate_crc p
  = (cmd p + sub_cmd p
     + sum_bytes (le_bytes sizeof_continuation (continuation p))
     + sum_bytes (le_bytes sizeof_timestamp (Protocol.timestamp p))
     + sum_bytes (payload p)) mod 2 ^ 16
  ∧ ∀ q : sSenseiDataPacket,
      cmd q = cmd p → sub_cmd q = sub_cmd p →
      continuation q = continuation p → Protocol.timestamp q = Protocol.timestamp p →
      payload q = payload p →
      calculate_crc q = calculate_crc p.
Proof.
  intros Hlen.
  assert (Hsum : ∀ r : sSenseiDataPacket,
    length (payload r) = SENSEI_PAYLOAD_LENGTH →
    calculate_crc r
    = (cmd r + sub_cmd r
       + sum_bytes (le_bytes sizeof_continuation (continuation r))
       + sum_bytes (le_bytes sizeof_timestamp (Protocol.timestamp r))
       + sum_bytes (payload r)) mod 2 ^ 16).
  { intros r Hr. unfold calculate_crc.
    rewrite for_loop_crc, drop_0, (scanned_memory r Hr), !sum_bytes_app.
    unfold to_uint16. f_equal. lia. }
  split; [exact (Hsum p Hlen)|].
  intros q Hc Hs Hk Ht Hp.
  rewrite (Hsum p Hlen), (Hsum q); [|rewrite Hp; exact Hlen].
  rewrite Hc, Hs, Hk, Ht, Hp. reflexivity.
Qed.

Lemma calculate_crc_sum_witness :
  length (payload test_packet) = SENSEI_PAYLOAD_LENGTH
  ∧ calculate_crc test_packet = 1219
  ∧ calculate_crc permuted_header_packet = calculate_crc test_packet.
Proof.
  split; [reflexivity|].
  destruct (calculate_crc_sum test_packet eq_refl) as [Hsum Hsame].
  split; [rewrite Hsum; reflexivity|].
  apply Hsame; reflexivity.
Defined.

(** ** The read loop and the messages it creates *)

Example analog_value_buffer_cast :
  packet_of_buffer analog_value_buffer = analog_value_packet.
Proof. reflexivity. Qed.

(** C3 (while the frontend is muted, the read loop pushes no message
    derived from an incoming packet onto the out queue).  The code does the
    opposite: [_muted == false] guards the verification only, so a muted
    frontend skips [verify_message] and pushes the message of every packet
    that [create_internal_message] can decode, valid or corrupt. *)
Theorem read_loop_pushes_while_muted `{SerialDeclarations}
    (self : SerialFrontend) (ret : Z) (buffer : list Z) (m : BaseMessage) :
  _muted self = true →
  SENSEI_LENGTH_DATA_PACKET ≤ ret →
  create_internal_message (packet_of_buffer buffer) = Some m →
  _out_queue (read_loop_iteration self ret buffer) = _out_queue self ++ [m].
Proof.
  intros Hmuted Hret Hm. unfold read_loop_iteration.
  destruct (Z.geb_spec ret SENSEI_LENGTH_DATA_PACKET) as [_|Hlt]; [|lia].
  rewrite Hmuted, Hm. reflexivity.
Qed.

(** Unmuted, the loop pushes the message of a verified packet and drops
    any other packet. *)
Lemma read_loop_unmuted `{SerialDeclarations}
    (self : SerialFrontend) (ret : Z) (buffer : list Z) :
  _muted self = false →
  SENSEI_LENGTH_DATA_PACKET ≤ ret →
  _out_queue (read_loop_iteration self ret buffer)
  = if verify_message (packet_of_buffer buffer)
    then match create_internal_message (packet_of_buffer buffer) with
         | Some m => _out_queue self ++ [m]
         | None => _out_queue self
         end
    else _out_queue self.
Proof.
  intros Hmuted Hret. unfold read_loop_iteration.
  destruct (Z.geb_spec ret SENSEI_LENGTH_DATA_PACKET) as [_|Hlt]; [|lia].
  rewrite Hmuted.
  destruct (verify_message (packet_of_buffer buffer)); simpl; [|reflexivity].
  destruct (create_internal_message (packet_of_buffer buffer)); reflexivity.
Qed.

(** Over a whole run of the loop: a muted frontend pushes the message of
    every packet read that decodes, in order, verified or not. *)
Lemma read_loop_muted `{SerialDeclarations}
    (reads : list (Z * list Z)) (self : SerialFrontend) :
  _muted self = true →
  _read_thread_state self = RUNNING →
  Forall (fun r => SENSEI_LENGTH_DATA_PACKET ≤ r.1) reads →
  _out_queue (read_loop self reads)
  = _out_queue self
    ++ omap (fun r => create_internal_message (packet_of_buffer r.2)) reads.
Proof.
  unfold read_loop. revert self.
  induction reads as [|[ret buffer] reads IH]; intros self Hmuted Hrun Hall.
  - simpl. rewrite app_nil_r. reflexivity.
  - apply Forall_cons in Hall as [Hret Hall]. simpl in Hret. cbn [foldl omap].
    rewrite decide_True by exact Hrun.
    assert (Hstep : read_loop_iteration self ret buffer
                    = match create_internal_message (packet_of_buffer buffer) with
                      | Some m => push_out self m
                      | None => self
                      end).
    { unfold read_loop_iteration.
      destruct (Z.geb_spec ret SENSEI_LENGTH_DATA_PACKET) as [_|Hlt]; [|lia].
      rewrite Hmuted. reflexivity. }
    rewrite Hstep. simpl.
    destruct (create_internal_message (packet_of_buffer buffer)) as [m|].
    + rewrite IH by assumption. simpl. rewrite <- app_assoc. reflexivity.
    + apply IH; assumption.
Qed.

(** The muted frontend pushes the message of a packet with no header and
    no checksum; unmuted, it drops that packet. *)
Lemma read_loop_pushes_while_muted_witness :
  verify_message (packet_of_buffer analog_value_buffer) = false
  ∧ _out_queue (read_loop_iteration idle_frontend 64 analog_value_buffer) = []
  ∧ _out_queue (read_loop_iteration (mute idle_frontend true) 64 analog_value_buffer)
    = [] ++ [VALUE (AnalogValue 12 35 1234)].
Proof.
  split; [reflexivity|]. split; [reflexivity|].
  apply (read_loop_pushes_while_muted (mute idle_frontend true) 64
           analog_value_buffer (VALUE (AnalogValue 12 35 1234)));
    [reflexivity | unfold SENSEI_LENGTH_DATA_PACKET; lia | reflexivity].
Defined.

(** C4, as stated, fails on the packet of its own example.  The claim has
    the index of a value message translated through a pin-to-id table
    (pin 12 of the wire coming out as index 10); serial_frontend.cpp keeps
    no such table, and the analog value of pin 12 sent under GET_VALUE
    comes out of [create_internal_message], and of the read loop, as the
    one message with index 12. *)
Lemma value_message_index_not_translated :
  create_internal_message analog_value_packet = Some (VALUE (AnalogValue 12 35 1234))
  ∧ create_internal_message analog_value_packet ≠ Some (VALUE (AnalogValue 10 35 1234))
  ∧ _out_queue (read_loop_iteration (mute idle_frontend true) 64 analog_value_buffer)
    = [VALUE (AnalogValue 12 35 1234)].
Proof. split; [reflexivity|]. split; [discriminate | reflexivity]. Qed.

(** C4, amended: a value message carries the pin id of the wire, not an
    index looked up in a pin-to-id table, which this frontend does not
    have.  Every message [create_internal_message] returns is a value
    message whose index is the [pin_id] read from the payload, with the
    value of the payload and the timestamp of the packet; and a packet sent
    under GET_VALUE or GET_ALL_VALUES whose payload has the analog pin type
    yields the analog value message with that index. *)
Theorem value_message_carries_wire_pin_id `{SerialDeclarations}
    (packet : sSenseiDataPacket) :
  let d := as_teensy_digital_value_msg (payload packet) in
  let a := as_teensy_analog_value_msg (payload packet) in
  (∀ m : BaseMessage,
     create_internal_message packet = Some m →
     m = VALUE (DigitalValue (pin_id d) (truthy (value d)) (Protocol.timestamp packet))
     ∨ m = VALUE (AnalogValue (pin_id a) (value a) (Protocol.timestamp packet)))
  ∧ (cmd packet = GET_VALUE ∨ cmd packet = GET_ALL_VALUES →
     pin_type d = PIN_ANALOG_INPUT →
     PIN_ANALOG_INPUT ≠ PIN_DIGITAL_INPUT →
     create_internal_message packet
     = Some (VALUE (AnalogValue (pin_id a) (value a) (Protocol.timestamp packet)))).
Proof.
  intros d a; subst d a. split.
  - intros m Hm.
    unfold create_internal_message, make_digital_value, make_analog_value in Hm.
    destruct ((cmd packet =? GET_VALUE) || (cmd packet =? GET_ALL_VALUES)).
    + destruct (pin_type (as_teensy_digital_value_msg (payload packet))
                =? PIN_DIGITAL_INPUT).
      * left. congruence.
      * destruct (pin_type (as_teensy_digital_value_msg (payload packet))
                  =? PIN_ANALOG_INPUT); [right; congruence | discriminate].
    + destruct (cmd packet =? ACK); discriminate.
  - intros Hcmd Htype Hne.
    unfold create_internal_message, make_analog_value.
    assert (Hguard : (cmd packet =? GET_VALUE) || (cmd packet =? GET_ALL_VALUES) = true).
    { apply orb_true_iff. destruct Hcmd as [->| ->]; [left|right]; apply Z.eqb_refl. }
    rewrite Hguard, Htype.
    destruct (Z.eqb_spec PIN_ANALOG_INPUT PIN_DIGITAL_INPUT) as [Heq|_];
      [contradiction|].
    rewrite Z.eqb_refl. reflexivity.
Qed.

(** The packet of the repository's test, sent under GET_VALUE: pin 12 comes
    out as index 12. *)
Lemma value_message_carries_wire_pin_id_witness :
  (cmd analog_value_packet = GET_VALUE ∨ cmd analog_value_packet = GET_ALL_VALUES)
  ∧ create_internal_message analog_value_packet
    = Some (VALUE (AnalogValue 12 35 1234)).
Proof.
  split; [left; reflexivity|].
  assert (Hne : PIN_ANALOG_INPUT ≠ PIN_DIGITAL_INPUT) by (vm_compute; discriminate).
  exact (proj2 (value_message_carries_wire_pin_id analog_value_packet)
           (or_introl eq_refl) eq_refl Hne).
Defined.

(** ** The mapping processor *)

Section MappingProcessorProperties.
Context `{SensorMappers}.

Lemma MappingProcessor_new_consistent (n : Z) (mp : MappingProcessor) :
  MappingProcessor_new n = Some mp →
  consistent mp ∧ _max_n_pins mp = n ∧ 0 ≤ n ∧ ∀ p, mapper_at mp p = None.
Proof.
  unfold MappingProcessor_new. destruct (Z.ltb_spec n 0) as [|Hn]; [discriminate|].
  intros [= <-]. unfold consistent, mapper_at. simpl.
  rewrite length_replicate. repeat split; [exact Hn|].
  intros p. destruct (p <? 0); [reflexivity|].
  destruct (replicate (Z.to_nat n) None !! Z.to_nat p) as [o|] eqn:E;
    [|reflexivity].
  apply lookup_replicate in E as [-> _]. reflexivity.
Qed.

Lemma reset_mapper_consistent (mp : MappingProcessor) (i : Z) (m : Mapper) :
  consistent mp → consistent (reset_mapper mp i m).
Proof.
  unfold consistent, reset_mapper. destruct (i <? 0); [trivial|].
  simpl. rewrite length_insert. trivial.
Qed.

Lemma reset_mapper_max_n_pins (mp : MappingProcessor) (i : Z) (m : Mapper) :
  _max_n_pins (reset_mapper mp i m) = _max_n_pins mp.
Proof. unfold reset_mapper. destruct (i <? 0); reflexivity. Qed.

Lemma mapper_at_reset_eq (mp : MappingProcessor) (i : Z) (m : Mapper) :
  consistent mp → 0 ≤ i ≤ _max_n_pins mp - 1 →
  mapper_at (reset_mapper mp i m) i = Some m.
Proof.
  unfold consistent, mapper_at, reset_mapper. intros Hc Hi.
  destruct (Z.ltb_spec i 0) as [|_]; [lia|].
  simpl. rewrite list_lookup_insert_eq; [reflexivity | lia].
Qed.

Lemma mapper_at_reset_ne (mp : MappingProcessor) (i j : Z) (m : Mapper) :
  i ≠ j → mapper_at (reset_mapper mp i m) j = mapper_at mp j.
Proof.
  unfold mapper_at, reset_mapper. intros Hne.
  destruct (Z.ltb_spec i 0) as [|Hi]; [reflexivity|].
  destruct (Z.ltb_spec j 0) as [|Hj]; [reflexivity|].
  simpl. rewrite list_lookup_insert_ne; [reflexivity | lia].
Qed.

Lemma apply_command_max_n_pins (mp : MappingProcessor) (cmd : Command) :
  _max_n_pins (fst (apply_command mp cmd)) = _max_n_pins mp.
Proof.
  unfold apply_command.
  destruct ((index cmd <? 0) || (index cmd >? _max_n_pins mp - 1)); [reflexivity|].
  destruct (data cmd) as [[]| | | | | | | | | | | | | | |]; simpl;
    try apply reset_mapper_max_n_pins; try reflexivity;
    destruct (mapper_at mp (index cmd)) as [m|]; try reflexivity;
    destruct (mapper_apply_command _ _ _); apply reset_mapper_max_n_pins.
Qed.

Lemma apply_command_consistent (mp : MappingProcessor) (cmd : Command) :
  consistent mp → consistent (fst (apply_command mp cmd)).
Proof.
  intros Hc. unfold apply_command.
  destruct ((index cmd <? 0) || (index cmd >? _max_n_pins mp - 1)); [exact Hc|].
  destruct (data cmd) as [[]| | | | | | | | | | | | | | |];
    try exact Hc; try (apply reset_mapper_consistent; exact Hc);
    destruct (mapper_at mp (index cmd)) as [m|]; try exact Hc;
    destruct (mapper_apply_command _ _ _); apply reset_mapper_consistent; exact Hc.
Qed.

Lemma apply_commands_invariant (mp : MappingProcessor) (cmds : list Command) :
  consistent mp →
  consistent (apply_commands mp cmds)
  ∧ _max_n_pins (apply_commands mp cmds) = _max_n_pins mp.
Proof.
  revert mp. unfold apply_commands.
  induction cmds as [|cmd cmds IH]; intros mp Hc; [split; trivial|].
  simpl. destruct (IH (fst (apply_command mp cmd))) as [Hc' Hn'].
  { apply apply_command_consistent, Hc. }
  split; [exact Hc'|]. rewrite Hn'. apply apply_command_max_n_pins.
Qed.

Lemma in_range_guard (mp : MappingProcessor) (i : Z) :
  0 ≤ i ≤ _max_n_pins mp - 1 →
  (i <? 0) || (i >? _max_n_pins mp - 1) = false.
Proof.
  intros Hi. apply orb_false_iff. split; [apply Z.ltb_ge | rewrite Z.gtb_ltb; apply Z.ltb_ge]; lia.
Qed.

Lemma out_of_range_guard (mp : MappingProcessor) (i : Z) :
  i < 0 ∨ _max_n_pins mp - 1 < i →
  (i <? 0) || (i >? _max_n_pins mp - 1) = true.
Proof.
  intros Hi. apply orb_true_iff. rewrite Z.gtb_ltb, !Z.ltb_lt. exact Hi.
Qed.

(** The kind a slot holds after one command. *)
Lemma kind_at_apply_command (mp : MappingProcessor) (cmd : Command) (p : Z) :
  consistent mp → 0 ≤ p ≤ _max_n_pins mp - 1 →
  kind_at (fst (apply_command mp cmd)) p
  = last_pin_type p [cmd] (kind_at mp p).
Proof.
  intros Hc Hp. unfold apply_command. cbn [last_pin_type].
  destruct ((index cmd <? 0) || (index cmd >? _max_n_pins mp - 1)) eqn:Hguard.
  - apply orb_true_iff in Hguard. rewrite Z.gtb_ltb, !Z.ltb_lt in Hguard.
    destruct (data cmd); try reflexivity.
    destruct (decide (index cmd = p)); [lia | reflexivity].
  - apply orb_false_iff in Hguard. rewrite Z.gtb_ltb, !Z.ltb_ge in Hguard.
    assert (Hother : ∀ m config,
      mapper_at mp (index cmd) = Some m →
      kind_at (reset_mapper mp (index cmd)
                 {| mapper_kind := mapper_kind m; mapper_config := config |}) p
      = kind_at mp p).
    { intros m config E.
      unfold kind_at. destruct (decide (index cmd = p)) as [Heq|Hne].
      - rewrite <- Heq, mapper_at_reset_eq, E; [reflexivity | exact Hc | lia].
      - rewrite mapper_at_reset_ne; [reflexivity | exact Hne]. }
    assert (Hset : ∀ k,
      kind_at (reset_mapper mp (index cmd) (new_mapper k (index cmd))) p
      = if decide (index cmd = p) then Some k else kind_at mp p).
    { intros k. unfold kind_at. destruct (decide (index cmd = p)) as [Heq|Hne].
      - rewrite <- Heq, mapper_at_reset_eq; [reflexivity | exact Hc | lia].
      - rewrite mapper_at_reset_ne; [reflexivity | exact Hne]. }
    destruct (data cmd) as [[]| | | | | | | | | | | | | | |]; simpl;
      try apply Hset; try (destruct (decide (index cmd = p)); reflexivity);
      destruct (mapper_at mp (index cmd)) as [m|] eqn:E; try reflexivity;
      destruct (mapper_apply_command _ _ _) as [config status]; simpl;
      apply Hother; reflexivity.
Qed.

Lemma last_pin_type_cons (p : Z) (cmd : Command) (cmds : list Command)
    (acc : option MapperKind) :
  last_pin_type p (cmd :: cmds) acc = last_pin_type p cmds (last_pin_type p [cmd] acc).
Proof. reflexivity. Qed.

(** The kind a slot holds after a stream of commands. *)
Lemma kind_at_apply_commands (mp : MappingProcessor) (cmds : list Command) (p : Z) :
  consistent mp → 0 ≤ p ≤ _max_n_pins mp - 1 →
  kind_at (apply_commands mp cmds) p = last_pin_type p cmds (kind_at mp p).
Proof.
  revert mp. induction cmds as [|cmd cmds IH]; intros mp Hc Hp; [reflexivity|].
  rewrite last_pin_type_cons, <- kind_at_apply_command by assumption.
  apply (IH (fst (apply_command mp cmd))).
  - apply apply_command_consistent, Hc.
  - rewrite apply_command_max_n_pins. exact Hp.
Qed.

(** C5 (SET_PIN_TYPE with DIGITAL_INPUT, ANALOG_INPUT or IMU_INPUT at an
    in-range index constructs the mapper of that kind in the slot, in place
    of what was there, and returns OK; any other pin type returns
    INVALID_VALUE; so a slot holds at most one mapper, of the kind of the
    last SET_PIN_TYPE that succeeded at its index).  [mp] is any processor
    reached from the constructor by a stream of commands.  A slot is an
    [option]: it holds one mapper or none. *)
Theorem set_pin_type_selects_mapper (n : Z) (mp0 : MappingProcessor)
    (cmds : list Command) (cmd : Command) (t : PinType) :
  MappingProcessor_new n = Some mp0 →
  data cmd = SetPinTypeCommand t →
  0 ≤ index cmd ≤ n - 1 →
  let mp := apply_commands mp0 cmds in
  match mapper_kind_of_pin_type t with
  | Some k =>
      apply_command mp cmd
      = (reset_mapper mp (index cmd) (new_mapper k (index cmd)), OK)
      ∧ mapper_at (fst (apply_command mp cmd)) (index cmd)
        = Some (new_mapper k (index cmd))
      ∧ ∀ j, j ≠ index cmd →
             mapper_at (fst (apply_command mp cmd)) j = mapper_at mp j
  | None => apply_command mp cmd = (mp, INVALID_VALUE)
  end
  ∧ ∀ p, 0 ≤ p ≤ n - 1 → kind_at mp p = last_pin_type p cmds None.
Proof.
  intros Hnew Hdata Hidx mp.
  destruct (MappingProcessor_new_consistent n mp0 Hnew) as (Hc0 & Hn0 & Hn & Hempty).
  destruct (apply_commands_invariant mp0 cmds Hc0) as [Hc Hmax]. fold mp in Hc, Hmax.
  rewrite Hn0 in Hmax.
  assert (Hrange : 0 ≤ index cmd ≤ _max_n_pins mp - 1) by lia.
  split.
  - assert (E : apply_command mp cmd
                = match mapper_kind_of_pin_type t with
                  | Some k => (reset_mapper mp (index cmd) (new_mapper k (index cmd)), OK)
                  | None => (mp, INVALID_VALUE)
                  end).
    { unfold apply_command. rewrite (in_range_guard mp _ Hrange), Hdata.
      destruct t; reflexivity. }
    rewrite E. destruct (mapper_kind_of_pin_type t) as [k|]; [|reflexivity].
    simpl. split; [reflexivity|]. split.
    + apply mapper_at_reset_eq; assumption.
    + intros j Hne. apply mapper_at_reset_ne. congruence.
  - intros p Hp. unfold mp.
    rewrite kind_at_apply_commands; [|exact Hc0|lia].
    unfold kind_at. rewrite Hempty. reflexivity.
Qed.

(** C6 (an index outside 0 .. max_n_pins-1, such as -1, max_n_pins and
    max_n_pins+1, gives INVALID_PIN_INDEX whatever the command; at an
    in-range index, a command other than SET_PIN_TYPE on a slot without
    mapper gives UNINITIALIZED_PIN). *)
Theorem apply_command_index_errors (mp : MappingProcessor) (cmd : Command) :
  (index cmd < 0 ∨ _max_n_pins mp - 1 < index cmd →
   apply_command mp cmd = (mp, INVALID_PIN_INDEX))
  ∧ (index cmd = -1 ∨ index cmd = _max_n_pins mp ∨ index cmd = _max_n_pins mp + 1 →
     snd (apply_command mp cmd) = INVALID_PIN_INDEX)
  ∧ (0 ≤ index cmd ≤ _max_n_pins mp - 1 → tag cmd ≠ SET_PIN_TYPE →
     mapper_at mp (index cmd) = None →
     apply_command mp cmd = (mp, UNINITIALIZED_PIN)).
Proof.
  assert (Hout : index cmd < 0 ∨ _max_n_pins mp - 1 < index cmd →
                 apply_command mp cmd = (mp, INVALID_PIN_INDEX)).
  { intros Hi. unfold apply_command. rewrite (out_of_range_guard mp _ Hi). reflexivity. }
  split; [exact Hout|]. split.
  - intros Hi. rewrite Hout; [reflexivity | lia].
  - intros Hi Htag Hnone. unfold apply_command.
    rewrite (in_range_guard mp _ Hi), Hnone.
    unfold tag in Htag. destruct (data cmd); try reflexivity. contradiction.
Qed.

(** C9 (on the errors [apply_command] raises itself, INVALID_PIN_INDEX,
    INVALID_VALUE for a SET_PIN_TYPE and UNINITIALIZED_PIN, the mappers are
    left as they were).  [apply_command] answers by itself, without calling
    a mapper, when the index is out of range, when the command is a
    SET_PIN_TYPE, or when the slot is empty; whenever it then returns
    another status than OK, that status is one of the three and the
    processor it leaves is the one it was given. *)
Theorem apply_command_error_is_atomic (mp : MappingProcessor) (cmd : Command) :
  index cmd < 0 ∨ _max_n_pins mp - 1 < index cmd
  ∨ tag cmd = SET_PIN_TYPE ∨ mapper_at mp (index cmd) = None →
  snd (apply_command mp cmd) ≠ OK →
  fst (apply_command mp cmd) = mp
  ∧ _mappers (fst (apply_command mp cmd)) = _mappers mp
  ∧ (snd (apply_command mp cmd) = INVALID_PIN_INDEX
     ∨ snd (apply_command mp cmd) = INVALID_VALUE ∧ tag cmd = SET_PIN_TYPE
     ∨ snd (apply_command mp cmd) = UNINITIALIZED_PIN).
Proof.
  intros Hself. unfold apply_command, tag in *.
  destruct ((index cmd <? 0) || (index cmd >? _max_n_pins mp - 1)) eqn:Hguard.
  - simpl. intros _. repeat split. left. reflexivity.
  - apply orb_false_iff in Hguard. rewrite Z.gtb_ltb, !Z.ltb_ge in Hguard.
    destruct Hself as [Hlo|[Hhi|Hself]]; [lia | lia |].
    destruct (data cmd) as [[]| | | | | | | | | | | | | | |]; simpl;
      try (intros Hne; exfalso; apply Hne; reflexivity);
      try (intros _; repeat split; right; left; split; reflexivity);
      (destruct Hself as [Htag|Hnone]; [discriminate Htag|]);
      rewrite Hnone; simpl; intros _; repeat split; right; right; reflexivity.
Qed.

End MappingProcessorProperties.

Lemma set_pin_type_selects_mapper_witness :
  MappingProcessor_new 16 = Some sixteen_pins
  ∧ kind_at (apply_commands sixteen_pins sample_stream) 12 = Some Analog
  ∧ kind_at (apply_commands sixteen_pins sample_stream) 3 = Some Digital
  ∧ kind_at (apply_commands sixteen_pins sample_stream) 5 = None
  ∧ snd (apply_command (apply_commands sixteen_pins sample_stream)
           (command 12 MAPPING (SetPinTypeCommand IMU_INPUT))) = OK
  ∧ kind_at (fst (apply_command (apply_commands sixteen_pins sample_stream)
                    (command 12 MAPPING (SetPinTypeCommand IMU_INPUT)))) 12
    = Some Imu.
Proof.
  split; [reflexivity|].
  destruct (set_pin_type_selects_mapper 16 sixteen_pins sample_stream
              (command 12 MAPPING (SetPinTypeCommand IMU_INPUT)) IMU_INPUT
              eq_refl eq_refl ltac:(simpl; lia)) as [Hset Hlast].
  cbn [mapper_kind_of_pin_type] in Hset. destruct Hset as (Hret & Hslot & _).
  split; [rewrite Hlast by lia; reflexivity|].
  split; [rewrite Hlast by lia; reflexivity|].
  split; [rewrite Hlast by lia; reflexivity|].
  split; [rewrite Hret; reflexivity|].
  exact (f_equal (fmap mapper_kind) Hslot).
Defined.

Lemma apply_command_index_errors_witness :
  apply_command sixteen_pins (command (-1) MAPPING (SetPinTypeCommand ANALOG_INPUT))
  = (sixteen_pins, INVALID_PIN_INDEX)
  ∧ snd (apply_command sixteen_pins (command 16 MAPPING (SetInvertEnabledCommand true)))
    = INVALID_PIN_INDEX
  ∧ snd (apply_command sixteen_pins (command 17 MAPPING ReloadConfigCommand))
    = INVALID_PIN_INDEX
  ∧ apply_command sixteen_pins (command 15 MAPPING (SetSendingModeCommand ON_PRESS))
    = (sixteen_pins, UNINITIALIZED_PIN).
Proof.
  split.
  { apply (apply_command_index_errors sixteen_pins
             (command (-1) MAPPING (SetPinTypeCommand ANALOG_INPUT))).
    left. simpl. lia. }
  split.
  { apply (apply_command_index_errors sixteen_pins
             (command 16 MAPPING (SetInvertEnabledCommand true))).
    right. left. reflexivity. }
  split.
  { apply (apply_command_index_errors sixteen_pins
             (command 17 MAPPING ReloadConfigCommand)).
    right. right. reflexivity. }
  apply (apply_command_index_errors sixteen_pins
           (command 15 MAPPING (SetSendingModeCommand ON_PRESS)));
    [simpl; lia | discriminate | reflexivity].
Defined.

Lemma apply_command_error_is_atomic_witness :
  fst (apply_command (apply_commands sixteen_pins sample_stream)
         (command 3 MAPPING (SetPinTypeCommand DISABLED)))
  = apply_commands sixteen_pins sample_stream
  ∧ snd (apply_command (apply_commands sixteen_pins sample_stream)
           (command 3 MAPPING (SetPinTypeCommand DISABLED)))
    = INVALID_VALUE.
Proof.
  split; [|reflexivity].
  apply (apply_command_error_is_atomic (apply_commands sixteen_pins sample_stream)
           (command 3 MAPPING (SetPinTypeCommand DISABLED)));
    [right; right; left; reflexivity | discriminate].
Defined.

(** ** The message concatenator *)

Lemma add_first_half (c : MessageConcatenator) (h : option (list Z))
    (p : sSenseiDataPacket) :
  holds c h → full_payload p → truthy (continuation p) = true →
  snd (add c p) = None ∧ holds (fst (add c p)) (Some (payload p)).
Proof.
  intros [Hlen _] Hp Hcont. unfold add. rewrite Hcont, andb_false_r. simpl.
  split; [reflexivity|]. unfold holds, memcpy. simpl.
  rewrite firstn_all2 by (rewrite Hp; reflexivity).
  rewrite length_app, length_drop, Hlen.
  split; [rewrite Hp; reflexivity|]. split; [reflexivity|]. split; [|exact Hp].
  apply take_app_length'. symmetry. exact Hp.
Qed.

Lemma add_single (c : MessageConcatenator) (p : sSenseiDataPacket) :
  holds c None → truthy (continuation p) = false →
  add c p = (c, Some (payload p)).
Proof.
  intros [_ Hw] Hcont. unfold add. rewrite Hw, Hcont. reflexivity.
Qed.

Lemma add_second_half (c : MessageConcatenator) (h : list Z)
    (p : sSenseiDataPacket) :
  holds c (Some h) → full_payload p → truthy (continuation p) = false →
  snd (add c p) = Some (h ++ payload p) ∧ holds (fst (add c p)) None.
Proof.
  intros (Hlen & Hw & Hh & Hhlen) Hp Hcont. unfold add.
  rewrite Hw, Hcont. simpl.
  assert (Hjoin : memcpy (_storage c) SENSEI_PAYLOAD_LENGTH (payload p)
                    SENSEI_PAYLOAD_LENGTH = h ++ payload p).
  { unfold memcpy. rewrite Hh.
    rewrite firstn_all2 by (rewrite Hp; reflexivity).
    rewrite drop_ge by (rewrite Hlen; reflexivity).
    rewrite app_nil_r. reflexivity. }
  rewrite Hjoin. split; [reflexivity|].
  unfold holds. simpl. rewrite length_app, Hhlen, Hp. split; reflexivity.
Qed.

Lemma add_all_joins (packets : list sSenseiDataPacket) (c : MessageConcatenator)
    (h : option (list Z)) :
  holds c h → Forall full_payload packets →
  snd (add_all c packets) = join_two_halves h packets.
Proof.
  revert c h. induction packets as [|p packets IH]; intros c h Hc Hall;
    [reflexivity|].
  apply Forall_cons in Hall as [Hp Hall]. cbn [add_all join_two_halves].
  destruct (truthy (continuation p)) eqn:Hcont.
  - destruct (add_first_half c h p Hc Hp Hcont) as [Hr Hc'].
    destruct (add c p) as [c' r]. simpl in Hr, Hc'. subst r.
    specialize (IH c' _ Hc' Hall).
    destruct (add_all c' packets) as [c'' rs]. simpl in *. congruence.
  - destruct h as [h|].
    + destruct (add_second_half c h p Hc Hp Hcont) as [Hr Hc'].
      destruct (add c p) as [c' r]. simpl in Hr, Hc'. subst r.
      specialize (IH c' _ Hc' Hall).
      destruct (add_all c' packets) as [c'' rs]. simpl in *. congruence.
    + rewrite (add_single c p Hc Hcont).
      specialize (IH c _ Hc Hall).
      destruct (add_all c packets) as [c'' rs]. simpl in *. congruence.
Qed.

Lemma join_two_halves_lengths (packets : list sSenseiDataPacket)
    (h : option (list Z)) (r : list Z) :
  Forall full_payload packets →
  match h with Some x => length x = SENSEI_PAYLOAD_LENGTH | None => True end →
  Some r ∈ join_two_halves h packets →
  length r = SENSEI_PAYLOAD_LENGTH ∨ length r = (2 * SENSEI_PAYLOAD_LENGTH)%nat.
Proof.
  revert h. induction packets as [|p packets IH]; intros h Hall Hh Hin.
  - apply elem_of_nil in Hin. contradiction.
  - apply Forall_cons in Hall as [Hp Hall]. cbn [join_two_halves] in Hin.
    destruct (truthy (continuation p)).
    + apply elem_of_cons in Hin as [Hin|Hin]; [discriminate|].
      apply (IH (Some (payload p))); [exact Hall | exact Hp | exact Hin].
    + apply elem_of_cons in Hin as [Hin|Hin].
      * injection Hin as ->. rewrite length_app, Hp.
        destruct h as [x|]; simpl; [rewrite Hh; right | left]; reflexivity.
      * apply (IH None); [exact Hall | exact I | exact Hin].
Qed.

(** C7 (from the non-waiting state, [add] returns nullptr for a packet
    with continuation 1 and keeps its payload; for the next packet, with
    continuation 0, it returns a buffer of 2 * SENSEI_PAYLOAD_LENGTH bytes,
    the first payload followed by the second; a packet with continuation 0
    in the non-waiting state is returned as it is; never more than two
    halves are joined).  [uninitialised] is what the storage holds when
    the object is constructed.  The last two parts are over any stream of
    packets: the results are those of [join_two_halves], and every buffer
    returned is one payload or two long. *)
Theorem concatenator_joins_two_halves (uninitialised : list Z)
    (p1 p2 : sSenseiDataPacket) (packets : list sSenseiDataPacket) :
  length uninitialised = (2 * SENSEI_PAYLOAD_LENGTH)%nat →
  Forall full_payload (p1 :: p2 :: packets) →
  continuation p1 = 1 → continuation p2 = 0 →
  let c0 := MessageConcatenator_new uninitialised in
  let c1 := fst (add c0 p1) in
  snd (add c0 p1) = None
  ∧ _waiting c1 = true
  ∧ take SENSEI_PAYLOAD_LENGTH (_storage c1) = payload p1
  ∧ add c1 p2
    = ({| _waiting := false; _storage := payload p1 ++ payload p2 |},
       Some (payload p1 ++ payload p2))
  ∧ length (payload p1 ++ payload p2) = (2 * SENSEI_PAYLOAD_LENGTH)%nat
  ∧ add c0 p2 = (c0, Some (payload p2))
  ∧ snd (add_all c0 packets) = join_two_halves None packets
  ∧ ∀ r, Some r ∈ snd (add_all c0 packets) →
         length r = SENSEI_PAYLOAD_LENGTH
         ∨ length r = (2 * SENSEI_PAYLOAD_LENGTH)%nat.
Proof.
  intros Hlen Hall Hc1 Hc2 c0 c1.
  apply Forall_cons in Hall as [Hp1 Hall]. apply Forall_cons in Hall as [Hp2 Hall].
  assert (H0 : holds c0 None) by (split; [exact Hlen | reflexivity]).
  assert (Ht1 : truthy (continuation p1) = true) by (rewrite Hc1; reflexivity).
  assert (Ht2 : truthy (continuation p2) = false) by (rewrite Hc2; reflexivity).
  destruct (add_first_half c0 None p1 H0 Hp1 Ht1) as [Hr1 H1]. fold c1 in H1.
  destruct (add_second_half c1 (payload p1) p2 H1 Hp2 Ht2) as [Hr2 H2].
  split; [exact Hr1|]. split; [apply H1|]. split; [apply H1|]. split.
  { destruct (add c1 p2) as [c2 r2] eqn:E. simpl in Hr2, H2. subst r2.
    f_equal. unfold add in E. destruct H1 as (_ & Hw & _).
    clear H2.
    rewrite Hw, Ht2 in E. simpl in E. injection E as E1 E2.
    rewrite <- E1, E2. reflexivity. }
  split; [rewrite length_app, Hp1, Hp2; reflexivity|].
  split; [apply add_single; assumption|].
  split; [apply add_all_joins; assumption|].
  intros r Hr. rewrite (add_all_joins packets c0 None H0 Hall) in Hr.
  exact (join_two_halves_lengths packets None r Hall I Hr).
Qed.

Lemma concatenator_joins_two_halves_witness :
  snd (add (MessageConcatenator_new stale_storage) first_half) = None
  ∧ snd (add (fst (add (MessageConcatenator_new stale_storage) first_half)) second_half)
    = Some (replicate 49 7 ++ replicate 49 9)
  ∧ snd (add_all (MessageConcatenator_new stale_storage)
           [first_half; first_half; second_half; second_half])
    = [None; None; Some (replicate 49 7 ++ replicate 49 9); Some (replicate 49 9)].
Proof.
  assert (Hall : Forall full_payload
                   [first_half; second_half;
                    first_half; first_half; second_half; second_half]).
  { repeat constructor. }
  destruct (concatenator_joins_two_halves stale_storage first_half second_half
              [first_half; first_half; second_half; second_half]
              eq_refl Hall eq_refl eq_refl)
    as (H1 & _ & _ & H2 & _ & _ & H3 & _).
  split; [exact H1|]. split; [rewrite H2; reflexivity|].
  rewrite H3. reflexivity.
Defined.

(** ** The writer of the serial frontend *)

(** C10 ([create_send_command] returns a null pointer for every command
    whose tag is not one of the nine it has a case for, and [write_loop]
    hands the pointer to the write of the serial port without looking at
    it; so the write receives a packet only if the command popped has one
    of the nine tags).  [_port] lists the pointers handed to the write. *)
Theorem write_loop_writes_unchecked `{SerialDeclarations}
    (self : SerialFrontend) (message : Command) (rest : list Command) :
  _in_queue self = message :: rest →
  (has_send_case (tag message) = false → create_send_command message = None)
  ∧ _in_queue (write_loop_iteration self) = rest
  ∧ _port (write_loop_iteration self) = _port self ++ [create_send_command message]
  ∧ (last (_port (write_loop_iteration self)) ≠ Some None →
     has_send_case (tag message) = true).
Proof.
  intros Hq.
  assert (Hnull : has_send_case (tag message) = false →
                  create_send_command message = None).
  { unfold has_send_case, tag, create_send_command.
    destruct (data message); try discriminate; reflexivity. }
  unfold write_loop_iteration. rewrite Hq. simpl.
  split; [exact Hnull|]. split; [reflexivity|]. split; [reflexivity|].
  rewrite last_snoc. intros Hwritten.
  destruct (has_send_case (tag message)); [reflexivity|].
  exfalso. apply Hwritten. rewrite Hnull; reflexivity.
Qed.

Lemma write_loop_writes_unchecked_witness :
  _port (write_loop_iteration
           (frontend_with (command 4 HW_FRONTEND (SetInvertEnabledCommand true))))
  = [] ++ [None]
  ∧ _port (write_loop_iteration
             (frontend_with (command 4 HW_FRONTEND (SetPinTypeCommand ANALOG_INPUT))))
    = [Some (empty_packet 4)].
Proof.
  split; [|reflexivity].
  destruct (write_loop_writes_unchecked
              (frontend_with (command 4 HW_FRONTEND (SetInvertEnabledCommand true)))
              (command 4 HW_FRONTEND (SetInvertEnabledCommand true)) [] eq_refl)
    as (Hnull & _ & Hport & _).
  rewrite Hport, (Hnull eq_refl). reflexivity.
Defined.

(** ** The event handler *)

Section EventHandlerProperties.
Context `{ValueMappers}.

Lemma handle_commands_routes (cmds : list Command) (self : EventHandler) :
  _processor (foldl _handle_command self cmds)
  = apply_commands (_processor self) (mapping_commands cmds)
  ∧ _to_frontend_queue (foldl _handle_command self cmds)
    = _to_frontend_queue self ++ frontend_commands cmds.
Proof.
  unfold mapping_commands, frontend_commands, apply_commands.
  revert self. induction cmds as [|cmd cmds IH]; intros self.
  - simpl. rewrite app_nil_r. split; reflexivity.
  - cbn [foldl]. destruct (IH (_handle_command self cmd)) as [IHp IHq].
    rewrite IHp, IHq, !filter_cons. unfold _handle_command.
    destruct (target cmd) eqn:Ht.
    + destruct (apply_command (_processor self) cmd) as [processor status] eqn:E.
      simpl. rewrite E. split; reflexivity.
    + simpl. rewrite <- app_assoc. split; reflexivity.
    + destruct (data cmd); split; reflexivity.
Qed.

Lemma dispatch_commands (cmds : list Command) (self : EventHandler) :
  foldl dispatch self (COMMAND <$> cmds) = foldl _handle_command self cmds.
Proof.
  revert self. induction cmds as [|cmd cmds IH]; intros self; [reflexivity|].
  simpl. apply IH.
Qed.

(** C8 (every call to reload_config reads the configuration source again
    and replays it as a stream of commands applied through the event
    handler, to the mapping processor and the hardware frontend).  With
    the configuration backend and the dispatcher as the specification
    describes them: [reload_config] puts the commands of the source, in
    order, at the back of the event queue; the next [handle_events]
    handles them after what was waiting, applying those addressed to the
    mapping processor with [apply_command] and appending those addressed
    to the hardware frontend to the to-frontend queue. *)
Theorem reload_config_replays_commands (self : EventHandler) :
  _event_queue (reload_config self)
  = _event_queue self ++ (COMMAND <$> source_commands (_config_backend self))
  ∧ handle_events (reload_config self)
    = foldl _handle_command (handle_events self)
        (source_commands (_config_backend self))
  ∧ _processor (handle_events (reload_config self))
    = apply_commands (_processor (handle_events self))
        (mapping_commands (source_commands (_config_backend self)))
  ∧ _to_frontend_queue (handle_events (reload_config self))
    = _to_frontend_queue (handle_events self)
      ++ frontend_commands (source_commands (_config_backend self)).
Proof.
  assert (Hdrain : handle_events (reload_config self)
                   = foldl _handle_command (handle_events self)
                       (source_commands (_config_backend self))).
  { unfold handle_events, reload_config, read. simpl.
    rewrite foldl_app, dispatch_commands. reflexivity. }
  split; [reflexivity|]. split; [exact Hdrain|].
  rewrite Hdrain. apply handle_commands_routes.
Qed.

End EventHandlerProperties.

(** A reload on a handler at rest: the pins of the source get their
    mappers, the command for the hardware is queued for the frontend, and
    the four commands the processor refuses are logged. *)
Example reload_config_sample :
  kind_at (_processor (handle_events (reload_config handler_at_rest))) 12 = Some Analog
  ∧ kind_at (_processor (handle_events (reload_config handler_at_rest))) 3 = Some Digital
  ∧ _to_frontend_queue (handle_events (reload_config handler_at_rest))
    = [command 3 HW_FRONTEND (SetPinTypeCommand DIGITAL_INPUT)]
  ∧ kind <$> _log (handle_events (reload_config handler_at_rest))
    = [INVALID_COMMAND_FOR_PIN_TYPE; INVALID_VALUE; INVALID_PIN_INDEX;
       UNINITIALIZED_PIN]
  ∧ _event_queue (handle_events (reload_config handler_at_rest)) = [].
Proof. repeat split. Qed.

(** * Further properties of the code *)

(** ** The checksum on well-formed packets *)

Lemma calculate_crc_closed_form (p : sSenseiDataPacket) :
  length (payload p) = SENSEI_PAYLOAD_LENGTH →
  calculate_crc p
  = to_uint16 (cmd p + sub_cmd p
               + sum_bytes (payload p
                            ++ le_bytes sizeof_continuation (continuation p)
                            ++ le_bytes sizeof_timestamp (Protocol.timestamp p))).
Proof.
  intros Hlen. unfold calculate_crc.
  rewrite for_loop_crc, drop_0, (scanned_memory p Hlen). reflexivity.
Qed.

Lemma sum_bytes_bounds (l : list Z) :
  Forall is_byte l → 0 ≤ sum_bytes l ≤ 255 * Z.of_nat (length l).
Proof.
  unfold sum_bytes, is_byte. induction 1 as [|b l Hb _ IH]; simpl; lia.
Qed.

Lemma le_bytes_are_bytes (n : nat) (x : Z) : Forall is_byte (le_bytes n x).
Proof.
  revert x. induction n as [|n IH]; intros x; simpl; constructor; [|apply IH].
  unfold is_byte. apply Z.mod_pos_bound. lia.
Qed.

Lemma well_formed_fields (p : sSenseiDataPacket) :
  well_formed p →
  is_byte (cmd p) ∧ is_byte (sub_cmd p) ∧ Forall is_byte (payload p).
Proof.
  intros [_ _ _ Hbytes]. unfold packet_memory, memory_from_payload in Hbytes.
  apply Forall_app in Hbytes as [_ Hbytes].
  apply Forall_app in Hbytes as [Hhead Hbytes].
  apply Forall_app in Hbytes as [Hpayload _].
  apply Forall_cons in Hhead as [Hcmd Hhead].
  apply Forall_cons in Hhead as [Hsub _].
  split; [exact Hcmd|]. split; [exact Hsub | exact Hpayload].
Qed.

(** The scanned region of a well-formed packet sums to less than 2^16. *)
Lemma scanned_sum_bounds (p : sSenseiDataPacket) :
  well_formed p →
  0 ≤ cmd p + sub_cmd p
      + sum_bytes (payload p
                   ++ le_bytes sizeof_continuation (continuation p)
                   ++ le_bytes sizeof_timestamp (Protocol.timestamp p))
    ≤ 14280.
Proof.
  intros Hwf. destruct (well_formed_fields p Hwf) as (Hc & Hs & Hp).
  pose proof (wf_payload p Hwf) as Hlen.
  pose proof (sum_bytes_bounds _ Hp) as B1.
  pose proof (sum_bytes_bounds _ (le_bytes_are_bytes sizeof_continuation (continuation p))) as B2.
  pose proof (sum_bytes_bounds _ (le_bytes_are_bytes sizeof_timestamp (Protocol.timestamp p))) as B3.
  rewrite le_bytes_length in B2, B3. rewrite Hlen in B1.
  rewrite !sum_bytes_app. unfold is_byte in Hc, Hs.
  unfold SENSEI_PAYLOAD_LENGTH, sizeof_continuation, sizeof_timestamp in *. lia.
Qed.

Lemma calculate_crc_plain_sum (p : sSenseiDataPacket) :
  well_formed p →
  calculate_crc p
  = cmd p + sub_cmd p
    + sum_bytes (payload p
                 ++ le_bytes sizeof_continuation (continuation p)
                 ++ le_bytes sizeof_timestamp (Protocol.timestamp p)).
Proof.
  intros Hwf. pose proof (scanned_sum_bounds p Hwf) as Hb.
  rewrite (calculate_crc_closed_form p (wf_payload p Hwf)).
  apply Z.mod_small. lia.
Qed.

(** The [uint16_t] accumulator of [calculate_crc] never wraps around on a
    packet whose fields hold bytes: the checksum is the plain sum of the 56
    scanned bytes, at most 56 * 255. *)
Theorem calculate_crc_never_wraps (p : sSenseiDataPacket) :
  well_formed p →
  calculate_crc p
  = cmd p + sub_cmd p
    + sum_bytes (le_bytes sizeof_continuation (continuation p))
    + sum_bytes (le_bytes sizeof_timestamp (Protocol.timestamp p))
    + sum_bytes (payload p)
  ∧ 0 ≤ calculate_crc p ≤ 56 * 255.
Proof.
  intros Hwf. pose proof (scanned_sum_bounds p Hwf) as Hb.
  rewrite (calculate_crc_closed_form p (wf_payload p Hwf)).
  unfold to_uint16. rewrite Z.mod_small by lia.
  rewrite !sum_bytes_app in *. lia.
Qed.

(** [verify_message] accepts a packet exactly when the bytes of its start
    header add up to those of the start signature (6), the bytes of its
    stop header to those of the stop signature (15), and the checksum
    computed equals the [crc] field. *)
Theorem verify_message_accepts_iff (p : sSenseiDataPacket) :
  verify_message p = true
  ↔ sum_bytes (take SENSEI_LENGTH_HEADER (vByte (start_header p)))
    = sum_bytes (vByte START_SIGNATURE)
    ∧ sum_bytes (take SENSEI_LENGTH_HEADER (vByte (stop_header p)))
      = sum_bytes (vByte STOP_SIGNATURE)
    ∧ calculate_crc p = crc p.
Proof.
  unfold verify_message. rewrite !compare_packet_header_sums.
  change (sum_bytes (take SENSEI_LENGTH_HEADER (vByte START_SIGNATURE))) with 6.
  change (sum_bytes (take SENSEI_LENGTH_HEADER (vByte STOP_SIGNATURE))) with 15.
  change (sum_bytes (vByte START_SIGNATURE)) with 6.
  change (sum_bytes (vByte STOP_SIGNATURE)) with 15.
  set (start := sum_bytes (take SENSEI_LENGTH_HEADER (vByte (start_header p)))).
  set (stop := sum_bytes (take SENSEI_LENGTH_HEADER (vByte (stop_header p)))).
  destruct (Z.eqb_spec (start - 6) 0) as [Hs|Hs];
  destruct (Z.eqb_spec (stop - 15) 0) as [He|He];
  destruct (Z.eqb_spec (calculate_crc p) (crc p)) as [Hc|Hc]; simpl;
    split; try discriminate; try (intros _; repeat split; lia);
    intros (H1 & H2 & H3); try lia; contradiction.
Qed.

Lemma test_packet_well_formed : well_formed test_packet.
Proof.
  split; try reflexivity. apply (bool_decide_unpack _). vm_compute. exact I.
Qed.

Lemma calculate_crc_never_wraps_witness :
  well_formed test_packet ∧ calculate_crc test_packet = 255 + 0 + 0 + 720 + 244.
Proof.
  split; [exact test_packet_well_formed|].
  destruct (calculate_crc_never_wraps test_packet test_packet_well_formed) as [Hsum _].
  rewrite Hsum. reflexivity.
Defined.

Lemma sum_bytes_permutation (l r : list Z) : l ≡ₚ r → sum_bytes l = sum_bytes r.
Proof. unfold sum_bytes. induction 1; simpl; lia. Qed.

Lemma with_payload_crc (p : sSenseiDataPacket) (bytes : list Z) :
  length (payload p) = SENSEI_PAYLOAD_LENGTH →
  length bytes = SENSEI_PAYLOAD_LENGTH →
  calculate_crc (with_payload p bytes) - calculate_crc p
  = to_uint16 (cmd p + sub_cmd p
               + sum_bytes (bytes
                            ++ le_bytes sizeof_continuation (continuation p)
                            ++ le_bytes sizeof_timestamp (Protocol.timestamp p)))
    - to_uint16 (cmd p + sub_cmd p
                 + sum_bytes (payload p
                              ++ le_bytes sizeof_continuation (continuation p)
                              ++ le_bytes sizeof_timestamp (Protocol.timestamp p))).
Proof.
  intros Hp Hb.
  rewrite (calculate_crc_closed_form p Hp),
    (calculate_crc_closed_form (with_payload p bytes) Hb).
  reflexivity.
Qed.

(** A sum does not see the order of its terms: a packet that verifies
    still verifies when the bytes of its payload arrive in any other
    order. *)
Theorem verify_message_misses_reordering (p : sSenseiDataPacket) (bytes : list Z) :
  length (payload p) = SENSEI_PAYLOAD_LENGTH →
  bytes ≡ₚ payload p →
  calculate_crc (with_payload p bytes) = calculate_crc p
  ∧ (verify_message p = true → verify_message (with_payload p bytes) = true).
Proof.
  intros Hlen Hperm.
  assert (Hb : length bytes = SENSEI_PAYLOAD_LENGTH).
  { rewrite <- Hlen. apply Permutation_length, Hperm. }
  assert (Hcrc : calculate_crc (with_payload p bytes) = calculate_crc p).
  { pose proof (with_payload_crc p bytes Hlen Hb) as Hd.
    rewrite !sum_bytes_app, (sum_bytes_permutation _ _ Hperm) in Hd. lia. }
  split; [exact Hcrc|].
  rewrite !verify_message_sums. simpl. rewrite Hcrc. trivial.
Qed.

Lemma verify_message_misses_reordering_witness :
  payload swapped_payload_packet ≠ payload test_packet
  ∧ verify_message swapped_payload_packet = true.
Proof.
  split; [discriminate|].
  apply (verify_message_misses_reordering test_packet
           ([0; 0; 0; 0; 3; 140] ++ drop 6 (payload test_packet)) eq_refl).
  - vm_compute. do 4 apply perm_skip. apply perm_swap.
  - reflexivity.
Defined.

Lemma with_payload_well_formed (p : sSenseiDataPacket) (bytes : list Z) :
  well_formed p → length bytes = SENSEI_PAYLOAD_LENGTH → Forall is_byte bytes →
  well_formed (with_payload p bytes).
Proof.
  intros [H1 H2 H3 H4] Hlen Hbytes. split; try assumption.
  unfold packet_memory, memory_from_payload in *.
  cbn [with_payload start_header cmd sub_cmd payload continuation
       Protocol.timestamp crc stop_header].
  apply Forall_app in H4 as [Hs H4]. apply Forall_app in H4 as [Hh H4].
  apply Forall_app in H4 as [_ H4].
  apply Forall_app. split; [exact Hs|]. apply Forall_app. split; [exact Hh|].
  apply Forall_app. split; [exact Hbytes | exact H4].
Qed.

(** One wrong byte in the payload is always seen: if a well-formed packet
    verifies, the packet that differs from it in exactly one byte of the
    payload does not. *)
Theorem verify_message_detects_one_byte (p : sSenseiDataPacket)
    (before after : list Z) (sent received : Z) :
  well_formed p →
  payload p = before ++ sent :: after →
  is_byte received → received ≠ sent →
  verify_message p = true →
  calculate_crc (with_payload p (before ++ received :: after))
  = calculate_crc p + (received - sent)
  ∧ verify_message (with_payload p (before ++ received :: after)) = false.
Proof.
  intros Hwf Hpay Hrec Hne Hok.
  set (q := with_payload p (before ++ received :: after)).
  assert (Hq : well_formed q).
  { destruct (well_formed_fields p Hwf) as (_ & _ & Hbytes).
    rewrite Hpay in Hbytes. apply Forall_app in Hbytes as [Hb Ha].
    apply Forall_cons in Ha as [_ Ha].
    apply with_payload_well_formed; [exact Hwf | |].
    - rewrite <- (wf_payload p Hwf), Hpay, !length_app. reflexivity.
    - apply Forall_app. split; [exact Hb|]. apply Forall_cons. split; assumption. }
  pose proof (calculate_crc_plain_sum p Hwf) as Hp.
  pose proof (calculate_crc_plain_sum q Hq) as Hqs.
  assert (Hcrc : calculate_crc q = calculate_crc p + (received - sent)).
  { rewrite Hp, Hqs. subst q. simpl. rewrite Hpay, !sum_bytes_app.
    unfold sum_bytes. simpl. lia. }
  split; [exact Hcrc|].
  apply verify_message_sums in Hok as (_ & _ & Hcp).
  destruct (verify_message q) eqn:Hv; [|reflexivity].
  apply verify_message_sums in Hv as (_ & _ & Hcq).
  subst q. simpl in Hcq. lia.
Qed.

Lemma verify_message_detects_one_byte_witness :
  calculate_crc damaged_payload_packet = 1219 + 1
  ∧ verify_message damaged_payload_packet = false.
Proof.
  apply (verify_message_detects_one_byte test_packet [0; 0; 0; 0]
           (drop 5 (payload test_packet)) 140 141 test_packet_well_formed eq_refl).
  - unfold is_byte. lia.
  - discriminate.
  - reflexivity.
Defined.

(** ** The identifier of a packet *)

Lemma land_below_shiftl (x y n : Z) :
  0 ≤ n → 0 ≤ x < 2 ^ n → Z.land x (Z.shiftl y n) = 0.
Proof.
  intros Hn Hx. apply Z.bits_inj'. intros m Hm.
  rewrite Z.land_spec, Z.bits_0.
  destruct (Z.lt_ge_cases m n) as [Hlt|Hge].
  - rewrite (Z.shiftl_spec_low y n m Hlt). apply andb_false_r.
  - assert (Hfalse : Z.testbit x m = false).
    { apply Z.testbit_false; [exact Hm|].
      rewrite Z.div_small; [reflexivity|].
      split; [lia|]. apply Z.lt_le_trans with (2 ^ n); [lia|].
      apply Z.pow_le_mono_r; lia. }
    rewrite Hfalse. reflexivity.
Qed.

Lemma add_is_lor (x y : Z) : Z.land x y = 0 → x + y = Z.lor x y.
Proof. intros H0. rewrite <- (Z.add_lor_land x y), H0. lia. Qed.

(** Within the widths of the fields nothing wraps: the identifier is the
    sum of the shifted fields. *)
Lemma uuid_of_sum (timestamp cmd sub_cmd : Z) :
  uuid_fields timestamp cmd sub_cmd →
  uuid_of timestamp cmd sub_cmd = timestamp + cmd * 2 ^ 32 + sub_cmd * 2 ^ 48.
Proof.
  intros (Ht & Hc & Hs).
  unfold uuid_of, to_uint64. rewrite !Z.shiftl_mul_pow2 by lia.
  rewrite (Z.mod_small timestamp), (Z.mod_small cmd), (Z.mod_small sub_cmd) by lia.
  rewrite (Z.mod_small (cmd * 2 ^ 32)), (Z.mod_small (sub_cmd * 2 ^ 48)) by lia.
  rewrite (Z.mod_small (timestamp + cmd * 2 ^ 32)) by lia.
  apply Z.mod_small. lia.
Qed.

(** The three fields lie in separate bits of the identifier, so the
    additions of [extract_uuid] never carry and never wrap: the identifier
    is the bitwise or of the shifted fields, and each field is read back
    from it. *)
Theorem uuid_of_fields (packet : sSenseiDataPacket) :
  uuid_fields (Protocol.timestamp packet) (cmd packet) (sub_cmd packet) →
  extract_uuid packet
  = Z.lor (Protocol.timestamp packet)
          (Z.lor (Z.shiftl (cmd packet) 32) (Z.shiftl (sub_cmd packet) 48))
  ∧ extract_uuid packet mod 2 ^ 32 = Protocol.timestamp packet
  ∧ (extract_uuid packet / 2 ^ 32) mod 2 ^ 16 = cmd packet
  ∧ extract_uuid packet / 2 ^ 48 = sub_cmd packet
  ∧ 0 ≤ extract_uuid packet < 2 ^ 56.
Proof.
  intros Hf. unfold extract_uuid. rewrite (uuid_of_sum _ _ _ Hf).
  destruct Hf as (Ht & Hc & Hs).
  set (timestamp := Protocol.timestamp packet) in *.
  set (c := cmd packet) in *. set (sc := sub_cmd packet) in *.
  split.
  - assert (L1 : Z.lor (Z.shiftl c 32) (Z.shiftl sc 48)
                 = Z.shiftl c 32 + Z.shiftl sc 48).
    { symmetry. apply add_is_lor.
      replace (Z.shiftl sc 48) with (Z.shiftl (Z.shiftl sc 16) 32)
        by (rewrite !Z.shiftl_mul_pow2 by lia; lia).
      rewrite <- Z.shiftl_land.
      rewrite (land_below_shiftl c sc 16) by lia. apply Z.shiftl_0_l. }
    assert (L2 : Z.lor timestamp (Z.shiftl c 32 + Z.shiftl sc 48)
                 = timestamp + (Z.shiftl c 32 + Z.shiftl sc 48)).
    { symmetry. apply add_is_lor.
      replace (Z.shiftl c 32 + Z.shiftl sc 48)
        with (Z.shiftl (c + sc * 2 ^ 16) 32)
        by (rewrite !Z.shiftl_mul_pow2 by lia; lia).
      apply land_below_shiftl; lia. }
    rewrite L1, L2, !Z.shiftl_mul_pow2 by lia. lia.
  - repeat split; try lia.
    + replace (timestamp + c * 2 ^ 32 + sc * 2 ^ 48)
        with (timestamp + (c + sc * 2 ^ 16) * 2 ^ 32) by lia.
      rewrite Z.mod_add by lia. apply Z.mod_small. lia.
    + replace (timestamp + c * 2 ^ 32 + sc * 2 ^ 48)
        with (timestamp + (c + sc * 2 ^ 16) * 2 ^ 32) by lia.
      rewrite Z.div_add by lia. rewrite (Z.div_small timestamp) by lia.
      rewrite Z.add_0_l, Z.mod_add by lia. apply Z.mod_small. lia.
    + replace (timestamp + c * 2 ^ 32 + sc * 2 ^ 48)
        with ((timestamp + c * 2 ^ 32) + sc * 2 ^ 48) by lia.
      rewrite Z.div_add by lia. rewrite Z.div_small by lia. lia.
Qed.

Lemma uuid_of_fields_witness :
  extract_uuid acked_packet
  = Z.lor 908 (Z.lor (Z.shiftl 100 32) (Z.shiftl 1 48))
  ∧ extract_uuid acked_packet / 2 ^ 48 = 1.
Proof.
  assert (Hf : uuid_fields (Protocol.timestamp acked_packet) (cmd acked_packet)
                 (sub_cmd acked_packet)) by (unfold uuid_fields; simpl; lia).
  destruct (uuid_of_fields acked_packet Hf) as (Hlor & _ & _ & Hsub & _).
  split; [exact Hlor | exact Hsub].
Defined.

(** An acknowledgement has the identifier of a data packet exactly when it
    carries the timestamp, the command and the sub-command of that packet:
    no two different commands share an identifier. *)
Theorem extract_uuid_matches (ack : sSenseiACKPacket) (packet : sSenseiDataPacket) :
  uuid_fields (ack_timestamp ack) (ack_cmd ack) (ack_sub_cmd ack) →
  uuid_fields (Protocol.timestamp packet) (cmd packet) (sub_cmd packet) →
  extract_uuid_ack ack = extract_uuid packet
  ↔ ack_timestamp ack = Protocol.timestamp packet
    ∧ ack_cmd ack = cmd packet
    ∧ ack_sub_cmd ack = sub_cmd packet.
Proof.
  intros Ha Hp. unfold extract_uuid_ack, extract_uuid. split.
  - rewrite (uuid_of_sum _ _ _ Ha), (uuid_of_sum _ _ _ Hp).
    destruct Ha as (At & Ac & As). destruct Hp as (Pt & Pc & Ps). lia.
  - intros (-> & -> & ->). reflexivity.
Qed.

Lemma extract_uuid_matches_witness :
  extract_uuid_ack test_ack = extract_uuid acked_packet
  ∧ extract_uuid_ack test_ack ≠ extract_uuid test_packet.
Proof.
  assert (Ha : uuid_fields (ack_timestamp test_ack) (ack_cmd test_ack)
                 (ack_sub_cmd test_ack)) by (unfold uuid_fields; simpl; lia).
  split.
  - apply (extract_uuid_matches test_ack acked_packet Ha).
    + unfold uuid_fields. simpl. lia.
    + repeat split.
  - intros Heq.
    apply (extract_uuid_matches test_ack test_packet Ha) in Heq.
    + destruct Heq as (_ & Hcmd & _). discriminate Hcmd.
    + unfold uuid_fields. vm_compute. repeat split; discriminate.
Defined.

(** ** The concatenator over any stream of packets *)

Lemma add_holds (c : MessageConcatenator) (h : option (list Z))
    (p : sSenseiDataPacket) :
  holds c h → full_payload p →
  holds (fst (add c p))
        (if truthy (continuation p) then Some (payload p) else None).
Proof.
  intros Hc Hp. destruct (truthy (continuation p)) eqn:Hcont.
  - apply (add_first_half c h p Hc Hp Hcont).
  - destruct h as [h|].
    + apply (add_second_half c h p Hc Hp Hcont).
    + rewrite (add_single c p Hc Hcont). exact Hc.
Qed.

Lemma add_all_storage (packets : list sSenseiDataPacket)
    (c : MessageConcatenator) (h : option (list Z)) :
  holds c h → Forall full_payload packets →
  length (_storage (fst (add_all c packets))) = (2 * SENSEI_PAYLOAD_LENGTH)%nat.
Proof.
  revert c h. induction packets as [|p packets IH]; intros c h Hc Hall.
  - apply Hc.
  - apply Forall_cons in Hall as [Hp Hall]. cbn [add_all].
    pose proof (add_holds c h p Hc Hp) as Hc'.
    destruct (add c p) as [c' r]. simpl in Hc'.
    specialize (IH c' _ Hc' Hall).
    destruct (add_all c' packets) as [c'' rs]. exact IH.
Qed.

(** The constructor leaves [_storage] uninitialised, and yet no byte of it
    is ever handed out: whatever the storage held, the buffers returned
    for a stream of packets are the same, and the storage keeps its
    size. *)
Theorem concatenator_never_returns_uninitialised (u1 u2 : list Z)
    (packets : list sSenseiDataPacket) :
  length u1 = (2 * SENSEI_PAYLOAD_LENGTH)%nat →
  length u2 = (2 * SENSEI_PAYLOAD_LENGTH)%nat →
  Forall full_payload packets →
  snd (add_all (MessageConcatenator_new u1) packets)
  = snd (add_all (MessageConcatenator_new u2) packets)
  ∧ length (_storage (fst (add_all (MessageConcatenator_new u1) packets)))
    = (2 * SENSEI_PAYLOAD_LENGTH)%nat.
Proof.
  intros H1 H2 Hall.
  assert (Hnew : ∀ u, length u = (2 * SENSEI_PAYLOAD_LENGTH)%nat →
                      holds (MessageConcatenator_new u) None).
  { intros u Hu. split; [exact Hu | reflexivity]. }
  split.
  - rewrite (add_all_joins packets _ None (Hnew u1 H1) Hall).
    rewrite (add_all_joins packets _ None (Hnew u2 H2) Hall). reflexivity.
  - apply (add_all_storage packets _ None (Hnew u1 H1) Hall).
Qed.

Lemma concatenator_never_returns_uninitialised_witness :
  snd (add_all (MessageConcatenator_new stale_storage)
         [second_half; first_half; second_half])
  = snd (add_all (MessageConcatenator_new (replicate 98 0))
           [second_half; first_half; second_half]).
Proof.
  apply (concatenator_never_returns_uninitialised stale_storage (replicate 98 0)
           [second_half; first_half; second_half] eq_refl eq_refl).
  repeat constructor.
Defined.

Lemma join_two_halves_flags (packets : list sSenseiDataPacket)
    (h : option (list Z)) :
  Forall2 (fun p r => match r with
                      | None => truthy (continuation p) = true
                      | Some buffer =>
                          truthy (continuation p) = false
                          ∧ payload p `suffix_of` buffer
                      end)
          packets (join_two_halves h packets).
Proof.
  revert h. induction packets as [|p packets IH]; intros h; [constructor|].
  cbn [join_two_halves]. destruct (truthy (continuation p)) eqn:Hcont.
  - constructor; [exact Hcont | apply IH].
  - constructor; [|apply IH]. split; [exact Hcont|].
    apply suffix_app_r. reflexivity.
Qed.

(** The continuation flag alone decides what [add] returns, in any state
    the object can be in: nullptr for a packet with the flag, a buffer
    that ends with the payload of the packet for a packet without it. *)
Theorem add_answers_by_continuation_flag (c : MessageConcatenator)
    (h : option (list Z)) (packets : list sSenseiDataPacket) :
  holds c h → Forall full_payload packets →
  Forall2 (fun p r => match r with
                      | None => continuation p ≠ 0
                      | Some buffer =>
                          continuation p = 0 ∧ payload p `suffix_of` buffer
                      end)
          packets (snd (add_all c packets)).
Proof.
  intros Hc Hall. rewrite (add_all_joins packets c h Hc Hall).
  eapply Forall2_impl; [apply join_two_halves_flags|].
  intros p [buffer|]; unfold truthy.
  - intros [Hf Hs]. split; [|exact Hs].
    apply negb_false_iff, Z.eqb_eq in Hf. exact Hf.
  - intros Hf. apply negb_true_iff, Z.eqb_neq in Hf. exact Hf.
Qed.

Lemma stale_storage_holds : holds (MessageConcatenator_new stale_storage) None.
Proof. split; reflexivity. Qed.

Lemma add_answers_by_continuation_flag_witness :
  Forall2 (fun p r => match r with
                      | None => continuation p ≠ 0
                      | Some buffer =>
                          continuation p = 0 ∧ payload p `suffix_of` buffer
                      end)
          [first_half; second_half; second_half]
          (snd (add_all (MessageConcatenator_new stale_storage)
                  [first_half; second_half; second_half])).
Proof.
  apply (add_answers_by_continuation_flag (MessageConcatenator_new stale_storage)
           None [first_half; second_half; second_half] stale_storage_holds).
  repeat constructor.
Defined.

(** A first half that is followed by another first half is dropped: the
    second one overwrites it, and the next packet without the flag is
    joined to the second one, whatever message it belongs to. *)
Theorem interrupted_first_half_is_lost (c : MessageConcatenator)
    (h : option (list Z)) (p1 p2 p3 : sSenseiDataPacket) :
  holds c h → full_payload p1 → full_payload p2 → full_payload p3 →
  continuation p1 ≠ 0 → continuation p2 ≠ 0 → continuation p3 = 0 →
  snd (add_all c [p1; p2; p3]) = [None; None; Some (payload p2 ++ payload p3)].
Proof.
  intros Hc H1 H2 H3 C1 C2 C3.
  rewrite (add_all_joins [p1; p2; p3] c h Hc) by (repeat constructor; assumption).
  cbn [join_two_halves]. unfold truthy.
  apply Z.eqb_neq in C1, C2. rewrite C1, C2, C3. reflexivity.
Qed.

Lemma interrupted_first_half_is_lost_witness :
  snd (add_all (MessageConcatenator_new stale_storage)
         [with_payload first_half (replicate 49 5); first_half; second_half])
  = [None; None; Some (replicate 49 7 ++ replicate 49 9)].
Proof.
  apply (interrupted_first_half_is_lost (MessageConcatenator_new stale_storage) None
           (with_payload first_half (replicate 49 5)) first_half second_half
           stale_storage_holds);
    try reflexivity; discriminate.
Defined.

(** ** The serial frontend over its lifetime *)

Section LifecycleProperties.
Context `{SerialDeclarations}.

(** A turn of the reader pushes at most one message and touches nothing
    else; a turn of the writer takes at most one command and touches
    neither the out queue nor the switches. *)
Lemma read_loop_iteration_cases (self : SerialFrontend) (ret : Z) (buffer : list Z) :
  read_loop_iteration self ret buffer = self
  ∨ ∃ m, read_loop_iteration self ret buffer = push_out self m.
Proof.
  unfold read_loop_iteration.
  destruct (ret >=? SENSEI_LENGTH_DATA_PACKET); [|left; reflexivity].
  destruct (bool_decide (_muted self = false)
            && bool_decide (verify_message (packet_of_buffer buffer) = false));
    [left; reflexivity|].
  destruct (create_internal_message (packet_of_buffer buffer)) as [m|];
    [right; exists m|left]; reflexivity.
Qed.

Lemma write_loop_iteration_cases (self : SerialFrontend) :
  write_loop_iteration self = self
  ∨ ∃ message rest,
      _in_queue self = message :: rest
      ∧ write_loop_iteration self
        = {| _in_queue := rest; _out_queue := _out_queue self;
             _read_thread_state := _read_thread_state self;
             _write_thread_state := _write_thread_state self;
             _connected := _connected self; _muted := _muted self;
             _port := _port self ++ [create_send_command message] |}.
Proof.
  unfold write_loop_iteration. destruct (_in_queue self) as [|message rest];
    [left | right; exists message, rest; split]; reflexivity.
Qed.

Lemma stable_refl (s : SerialFrontend) : stable s s.
Proof. split; reflexivity. Qed.

Lemma stable_trans (a b c : SerialFrontend) : stable a b → stable b c → stable a c.
Proof.
  intros [A1 A2 A3 A4] [B1 B2 B3 B4]. split.
  - congruence.
  - etransitivity; eassumption.
  - etransitivity; eassumption.
  - etransitivity; eassumption.
Qed.

Lemma read_loop_iteration_stable (self : SerialFrontend) (ret : Z) (buffer : list Z) :
  stable self (read_loop_iteration self ret buffer)
  ∧ _read_thread_state (read_loop_iteration self ret buffer) = _read_thread_state self
  ∧ _write_thread_state (read_loop_iteration self ret buffer) = _write_thread_state self
  ∧ _muted (read_loop_iteration self ret buffer) = _muted self.
Proof.
  destruct (read_loop_iteration_cases self ret buffer) as [->|[m ->]].
  - repeat split; reflexivity.
  - repeat split; try reflexivity. simpl. apply prefix_app_r. reflexivity.
Qed.

Lemma write_loop_iteration_stable (self : SerialFrontend) :
  stable self (write_loop_iteration self)
  ∧ _read_thread_state (write_loop_iteration self) = _read_thread_state self
  ∧ _write_thread_state (write_loop_iteration self) = _write_thread_state self
  ∧ _muted (write_loop_iteration self) = _muted self.
Proof.
  destruct (write_loop_iteration_cases self) as [->|(message & rest & Hq & ->)].
  - repeat split; reflexivity.
  - repeat split; try reflexivity; simpl.
    + rewrite Hq. apply suffix_cons_r. reflexivity.
    + apply prefix_app_r. reflexivity.
Qed.

Lemma stop_states (self : SerialFrontend) (last_read : option (Z * list Z))
    (last_write : bool) :
  stable self (stop self last_read last_write)
  ∧ _muted (stop self last_read last_write) = _muted self
  ∧ (_read_thread_state self = RUNNING → _write_thread_state self = RUNNING →
     _read_thread_state (stop self last_read last_write) = STOPPED
     ∧ _write_thread_state (stop self last_read last_write) = STOPPED)
  ∧ (_read_thread_state self ≠ RUNNING ∨ _write_thread_state self ≠ RUNNING →
     stop self last_read last_write = self).
Proof.
  unfold stop.
  destruct (bool_decide (_read_thread_state self ≠ RUNNING)
            || bool_decide (_write_thread_state self ≠ RUNNING)) eqn:Hguard.
  - split; [apply stable_refl|]. split; [reflexivity|]. split; [|reflexivity].
    intros Hr Hw. apply orb_true_iff in Hguard as [Hg|Hg];
      apply bool_decide_eq_true in Hg; contradiction.
  - set (s1 := change_state self STOPPING).
    set (s2 := match last_read with
               | Some (ret, buffer) => read_loop_iteration s1 ret buffer
               | None => s1
               end).
    set (s3 := reader_exit s2).
    set (s4 := if last_write then write_loop_iteration s3 else s3).
    assert (H12 : stable s1 s2 ∧ _muted s2 = _muted s1).
    { subst s2. destruct last_read as [[ret buffer]|].
      - destruct (read_loop_iteration_stable s1 ret buffer) as (Hs & _ & _ & Hm).
        split; assumption.
      - split; [apply stable_refl | reflexivity]. }
    assert (H34 : stable s3 s4 ∧ _muted s4 = _muted s3).
    { subst s4. destruct last_write.
      - destruct (write_loop_iteration_stable s3) as (Hs & _ & _ & Hm).
        split; assumption.
      - split; [apply stable_refl | reflexivity]. }
    destruct H12 as [H12 M12]. destruct H34 as [H34 M34].
    assert (H01 : stable self s1) by (split; reflexivity).
    assert (H23 : stable s2 s3) by (split; reflexivity).
    assert (H45 : stable s4 (writer_exit s4)) by (split; reflexivity).
    split; [|split; [|split]].
    + eapply stable_trans; [exact H01|]. eapply stable_trans; [exact H12|].
      eapply stable_trans; [exact H23|]. eapply stable_trans; [exact H34|exact H45].
    + simpl. rewrite M34. simpl. rewrite M12. reflexivity.
    + intros _ _. split; [|reflexivity]. simpl. subst s4.
      destruct last_write; [|reflexivity].
      destruct (write_loop_iteration_stable s3) as (_ & Hr & _). rewrite Hr. reflexivity.
    + intros Hnot. apply orb_false_iff in Hguard as [Hr Hw].
      apply bool_decide_eq_false in Hr, Hw. tauto.
Qed.

Lemma step_stable (self : SerialFrontend) (c : call) :
  stable self (step self c)
  ∧ _muted (step self c) = last_mute (_muted self) [c]
  ∧ (_read_thread_state self = _write_thread_state self →
     _read_thread_state self ≠ STOPPING →
     _read_thread_state (step self c) = _write_thread_state (step self c)
     ∧ _read_thread_state (step self c) ≠ STOPPING).
Proof.
  destruct c as [|last_read last_write|state|ret buffer|]; cbn [step last_mute foldl].
  - unfold run.
    destruct (bool_decide (_read_thread_state self ≠ RUNNING)
              && bool_decide (_write_thread_state self ≠ RUNNING)).
    + split; [split; reflexivity|]. split; [reflexivity|].
      intros _ _. split; [reflexivity | discriminate].
    + split; [apply stable_refl|]. split; [reflexivity|]. tauto.
  - destruct (stop_states self last_read last_write) as (Hs & Hm & Hrun & Hidle).
    split; [exact Hs|]. split; [exact Hm|]. intros Heq Hne.
    destruct (decide (_read_thread_state self = RUNNING)) as [Hr|Hr].
    + destruct (Hrun Hr) as [-> ->]; [congruence|]. split; [reflexivity | discriminate].
    + rewrite Hidle by (left; exact Hr). split; assumption.
  - split; [split; reflexivity|]. split; [reflexivity|]. tauto.
  - destruct (decide (_read_thread_state self = RUNNING));
      [|split; [apply stable_refl|]; split; [reflexivity | tauto]].
    destruct (read_loop_iteration_stable self ret buffer) as (Hs & Hr & Hw & Hm).
    split; [exact Hs|]. split; [exact Hm|]. rewrite Hr, Hw. tauto.
  - destruct (decide (_write_thread_state self = RUNNING));
      [|split; [apply stable_refl|]; split; [reflexivity | tauto]].
    destruct (write_loop_iteration_stable self) as (Hs & Hr & Hw & Hm).
    split; [exact Hs|]. split; [exact Hm|]. rewrite Hr, Hw. tauto.
Qed.

Lemma steps_stable (calls : list call) (self : SerialFrontend) :
  _read_thread_state self = _write_thread_state self →
  _read_thread_state self ≠ STOPPING →
  stable self (steps self calls)
  ∧ _muted (steps self calls) = last_mute (_muted self) calls
  ∧ _read_thread_state (steps self calls) = _write_thread_state (steps self calls)
  ∧ _read_thread_state (steps self calls) ≠ STOPPING.
Proof.
  unfold steps, last_mute. revert self.
  induction calls as [|c calls IH]; intros self Heq Hne.
  - split; [apply stable_refl|]. repeat split; assumption.
  - cbn [foldl]. destruct (step_stable self c) as (Hs & Hm & Hst).
    destruct (Hst Heq Hne) as [Heq' Hne'].
    destruct (IH (step self c) Heq' Hne') as (Hs' & Hm' & Hrest).
    split; [eapply stable_trans; eassumption|].
    split; [|exact Hrest]. rewrite Hm', Hm. reflexivity.
Qed.

(** Whatever is called on a frontend and whatever its threads do, from its
    construction on: [connected] answers false (nothing in the class ever
    sets the flag), the two thread states are equal and never left at
    [STOPPING], the mute switch is what the last call of [mute] made it,
    the out queue only grows at its back, and the in queue only shrinks
    at its front. *)
Theorem frontend_lifetime_invariant (in_queue : list Command)
    (out_queue : list BaseMessage) (calls : list call) :
  let self := steps (SerialFrontend_new in_queue out_queue) calls in
  connected self = false
  ∧ _read_thread_state self = _write_thread_state self
  ∧ _read_thread_state self ≠ STOPPING
  ∧ _muted self = last_mute false calls
  ∧ out_queue `prefix_of` _out_queue self
  ∧ _in_queue self `suffix_of` in_queue.
Proof.
  intros self.
  destruct (steps_stable calls (SerialFrontend_new in_queue out_queue) eq_refl)
    as ([Hc Ho Hi _] & Hm & Heq & Hne); [discriminate|].
  fold self in Hc, Ho, Hi, Hm, Heq, Hne.
  repeat split; assumption.
Qed.

(** [stop] on a frontend that is not running does nothing, [run] on a
    running one does nothing, and a running frontend is stopped by [stop]
    with both threads at [STOPPED], from where [run] starts it again. *)
Theorem run_stop_cycle (self : SerialFrontend) (last_read : option (Z * list Z))
    (last_write : bool) :
  _read_thread_state self = STOPPED → _write_thread_state self = STOPPED →
  stop self last_read last_write = self
  ∧ run (run self) = run self
  ∧ _read_thread_state (run self) = RUNNING
  ∧ _write_thread_state (run self) = RUNNING
  ∧ stop (run self) None false = self
  ∧ _read_thread_state (stop (run self) last_read last_write) = STOPPED
  ∧ _write_thread_state (stop (run self) last_read last_write) = STOPPED
  ∧ run (stop (run self) None false) = run self.
Proof.
  intros Hr Hw.
  assert (Hrun : run self = change_state self RUNNING).
  { unfold run. rewrite Hr, Hw. reflexivity. }
  assert (Hstop : stop (run self) None false = self).
  { rewrite Hrun. destruct self; simpl in *. subst. reflexivity. }
  split.
  { apply stop_states. left. rewrite Hr. discriminate. }
  split; [rewrite Hrun; reflexivity|].
  split; [rewrite Hrun; reflexivity|].
  split; [rewrite Hrun; reflexivity|].
  split; [exact Hstop|].
  destruct (stop_states (run self) last_read last_write) as (_ & _ & Hs & _).
  destruct Hs as [Hs1 Hs2]; try (rewrite Hrun; reflexivity).
  split; [exact Hs1|]. split; [exact Hs2|].
  rewrite Hstop. reflexivity.
Qed.

(** [write_loop] takes the commands in the order they were queued and
    hands one pointer per command to the port, null for a command it has
    no packet for: after [n] turns the port has received the packets of
    the first [n] commands, in order, and the rest is still queued. *)
Theorem write_loop_keeps_order (n : nat) (self : SerialFrontend) :
  _port (writer_turns n self)
  = _port self ++ (create_send_command <$> take n (_in_queue self))
  ∧ _in_queue (writer_turns n self) = drop n (_in_queue self)
  ∧ _out_queue (writer_turns n self) = _out_queue self.
Proof.
  unfold writer_turns. revert self. induction n as [|n IH]; intros self.
  - simpl. rewrite app_nil_r. repeat split; reflexivity.
  - rewrite Nat.iter_succ_r.
    destruct (IH (write_loop_iteration self)) as (Hp & Hq & Ho).
    rewrite Hp, Hq, Ho.
    destruct (write_loop_iteration_cases self) as [Hsame|(message & rest & Hin & Hw)].
    + unfold write_loop_iteration in Hsame.
      destruct (_in_queue self) as [|message rest] eqn:Hin.
      * unfold write_loop_iteration. rewrite Hin, Hin. simpl.
        rewrite take_nil, drop_nil. repeat split; reflexivity.
      * exfalso. apply (f_equal _in_queue) in Hsame. simpl in Hsame.
        rewrite Hin in Hsame. apply (f_equal length) in Hsame. simpl in Hsame. lia.
    + rewrite Hw, Hin. simpl. rewrite <- app_assoc. repeat split; reflexivity.
Qed.

End LifecycleProperties.

Lemma run_stop_cycle_witness :
  stop (run (SerialFrontend_new sample_in_queue []))
       (Some (64, digital_value_buffer)) true
  = {| _in_queue := drop 1 sample_in_queue;
       _out_queue := [VALUE (DigitalValue 7 true 99)];
       _read_thread_state := STOPPED; _write_thread_state := STOPPED;
       _connected := false; _muted := false;
       _port := [Some (empty_packet 4)] |}
  ∧ stop (run (SerialFrontend_new sample_in_queue [])) None false
    = SerialFrontend_new sample_in_queue [].
Proof.
  split; [reflexivity|].
  apply (run_stop_cycle (SerialFrontend_new sample_in_queue [])
           (Some (64, digital_value_buffer)) true eq_refl eq_refl).
Defined.

(** The trace [sample_calls]: one message per verified packet read while
    running, one more for the read that [stop] interrupts, none after. *)
Example sample_calls_run :
  steps (SerialFrontend_new sample_in_queue []) sample_calls
  = {| _in_queue := drop 2 sample_in_queue;
       _out_queue := [VALUE (DigitalValue 7 true 99); VALUE (DigitalValue 7 true 99)];
       _read_thread_state := STOPPED; _write_thread_state := STOPPED;
       _connected := false; _muted := false;
       _port := [Some (empty_packet 4); None] |}.
Proof. reflexivity. Qed.

(** ** The read loop and the decoding of packets *)

Section ReadLoopProperties.
Context `{SerialDeclarations}.

(** A read that returns fewer bytes than a packet is ignored, whatever the
    buffer holds and whether muted or not; and no turn of the read loop
    does more than push one message at the back of the out queue. *)
Theorem read_loop_iteration_frame (self : SerialFrontend) (ret : Z) (buffer : list Z) :
  (ret < SENSEI_LENGTH_DATA_PACKET → read_loop_iteration self ret buffer = self)
  ∧ (∃ pushed, read_loop_iteration self ret buffer
               = {| _in_queue := _in_queue self;
                    _out_queue := _out_queue self ++ pushed;
                    _read_thread_state := _read_thread_state self;
                    _write_thread_state := _write_thread_state self;
                    _connected := _connected self; _muted := _muted self;
                    _port := _port self |}
               ∧ (length pushed ≤ 1)%nat).
Proof.
  split.
  - intros Hshort. unfold read_loop_iteration.
    destruct (Z.geb_spec ret SENSEI_LENGTH_DATA_PACKET) as [Hge|_]; [lia | reflexivity].
  - destruct (read_loop_iteration_cases self ret buffer) as [->|[m ->]].
    + exists []. rewrite app_nil_r. split; [destruct self; reflexivity | simpl; lia].
    + exists [m]. split; [reflexivity | simpl; lia].
Qed.

(** Over a whole run of the loop of a frontend that is not muted: the
    messages pushed are those of the packets that were read whole, passed
    [verify_message] and could be decoded, in the order of arrival. *)
Theorem read_loop_filters_unmuted (reads : list (Z * list Z)) (self : SerialFrontend) :
  _muted self = false →
  _read_thread_state self = RUNNING →
  _out_queue (read_loop self reads)
  = _out_queue self ++ omap accepted_message reads.
Proof.
  unfold read_loop. revert self.
  induction reads as [|[ret buffer] reads IH]; intros self Hmuted Hrun.
  - simpl. rewrite app_nil_r. reflexivity.
  - assert (Hcons : omap accepted_message ((ret, buffer) :: reads)
                    = match accepted_message (ret, buffer) with
                      | Some m => m :: omap accepted_message reads
                      | None => omap accepted_message reads
                      end) by reflexivity.
    rewrite Hcons. clear Hcons.
    cbn [foldl]. rewrite decide_True by exact Hrun.
    destruct (read_loop_iteration_stable self ret buffer) as (_ & Hr & _ & Hm).
    rewrite IH by congruence.
    assert (Hstep : _out_queue (read_loop_iteration self ret buffer)
                    = _out_queue self
                      ++ match accepted_message (ret, buffer) with
                         | Some m => [m]
                         | None => []
                         end).
    { unfold read_loop_iteration, accepted_message. simpl. rewrite Hmuted.
      destruct (ret >=? SENSEI_LENGTH_DATA_PACKET); simpl;
        [|rewrite app_nil_r; reflexivity].
      destruct (verify_message (packet_of_buffer buffer)); simpl;
        [|rewrite app_nil_r; reflexivity].
      destruct (create_internal_message (packet_of_buffer buffer));
        [reflexivity | rewrite app_nil_r; reflexivity]. }
    rewrite Hstep.
    destruct (accepted_message (ret, buffer));
      rewrite <- app_assoc; reflexivity.
Qed.

(** [create_internal_message] returns a message exactly for a packet whose
    command is GET_VALUE or GET_ALL_VALUES and whose payload names a
    digital or an analog input pin; every other packet, an ACK among them,
    gives nullptr. *)
Theorem create_internal_message_decodes (packet : sSenseiDataPacket) :
  is_Some (create_internal_message packet)
  ↔ (cmd packet = GET_VALUE ∨ cmd packet = GET_ALL_VALUES)
    ∧ (pin_type (as_teensy_digital_value_msg (payload packet)) = PIN_DIGITAL_INPUT
       ∨ pin_type (as_teensy_digital_value_msg (payload packet)) = PIN_ANALOG_INPUT).
Proof.
  unfold create_internal_message, make_digital_value, make_analog_value.
  destruct (Z.eqb_spec (cmd packet) GET_VALUE) as [Hg|Hg];
  destruct (Z.eqb_spec (cmd packet) GET_ALL_VALUES) as [Ha|Ha];
  destruct (Z.eqb_spec (pin_type (as_teensy_digital_value_msg (payload packet)))
                       PIN_DIGITAL_INPUT) as [Hd|Hd];
  destruct (Z.eqb_spec (pin_type (as_teensy_digital_value_msg (payload packet)))
                       PIN_ANALOG_INPUT) as [Hn|Hn];
  simpl; try destruct (cmd packet =? ACK);
    split; try (intros _; eauto; tauto); try (intros [x Hx]; discriminate Hx);
    try (intros [[?|?] [?|?]]; contradiction); intros _; eexists; reflexivity.
Qed.

End ReadLoopProperties.

Lemma read_loop_filters_unmuted_witness :
  _out_queue (read_loop (run (SerialFrontend_new [] []))
                [(64, digital_value_buffer); (63, digital_value_buffer);
                 (64, analog_value_buffer); (100, digital_value_buffer)])
  = [VALUE (DigitalValue 7 true 99); VALUE (DigitalValue 7 true 99)].
Proof.
  rewrite (read_loop_filters_unmuted
             [(64, digital_value_buffer); (63, digital_value_buffer);
              (64, analog_value_buffer); (100, digital_value_buffer)]
             (run (SerialFrontend_new [] [])) eq_refl eq_refl).
  vm_compute. reflexivity.
Defined.

(** ** The mapping processor: what a command can touch *)

Section MappingProcessorFrame.
Context `{SensorMappers}.

Lemma reset_mapper_length (mp : MappingProcessor) (i : Z) (m : Mapper) :
  length (_mappers (reset_mapper mp i m)) = length (_mappers mp).
Proof.
  unfold reset_mapper. destruct (i <? 0); [reflexivity|]. simpl. apply length_insert.
Qed.

Lemma mapper_at_reset_present (mp : MappingProcessor) (i : Z) (m m' : Mapper) :
  mapper_at mp i = Some m → mapper_at (reset_mapper mp i m') i = Some m'.
Proof.
  unfold mapper_at, reset_mapper. destruct (i <? 0); [discriminate|]. simpl.
  destruct (_mappers mp !! Z.to_nat i) as [slot|] eqn:E; [|discriminate].
  intros _. rewrite list_lookup_insert_eq; [reflexivity|].
  apply lookup_lt_Some in E. exact E.
Qed.

Lemma reset_mapper_commute (mp : MappingProcessor) (i j : Z) (m n : Mapper) :
  i ≠ j →
  reset_mapper (reset_mapper mp i m) j n = reset_mapper (reset_mapper mp j n) i m.
Proof.
  intros Hne. unfold reset_mapper.
  destruct (Z.ltb_spec i 0) as [|Hi]; destruct (Z.ltb_spec j 0) as [|Hj];
    try reflexivity.
  simpl. f_equal. apply list_insert_insert_ne. lia.
Qed.

Lemma reset_mapper_twice (mp : MappingProcessor) (i : Z) (m n : Mapper) :
  reset_mapper (reset_mapper mp i m) i n = reset_mapper mp i n.
Proof.
  unfold reset_mapper. destruct (i <? 0); [reflexivity|].
  simpl. f_equal. apply list_insert_insert_eq.
Qed.

(** What [apply_command] answers, and which mapper it stores if any,
    follows from the size of the processor and from the slot of the
    command alone. *)
Lemma apply_command_local (mp mp' : MappingProcessor) (cmd : Command) :
  _max_n_pins mp = _max_n_pins mp' →
  mapper_at mp (index cmd) = mapper_at mp' (index cmd) →
  snd (apply_command mp cmd) = snd (apply_command mp' cmd)
  ∧ (fst (apply_command mp cmd) = mp ∧ fst (apply_command mp' cmd) = mp'
     ∨ ∃ m, fst (apply_command mp cmd) = reset_mapper mp (index cmd) m
            ∧ fst (apply_command mp' cmd) = reset_mapper mp' (index cmd) m).
Proof.
  intros Hmax Hslot. unfold apply_command. rewrite <- Hmax, <- Hslot.
  destruct ((index cmd <? 0) || (index cmd >? _max_n_pins mp - 1));
    [split; [reflexivity | left; split; reflexivity]|].
  destruct (data cmd) as [[]| | | | | | | | | | | | | | |];
    try (split; [reflexivity | left; split; reflexivity]);
    try (split; [reflexivity | right; eexists; split; reflexivity]);
    (destruct (mapper_at mp (index cmd)) as [m|];
     [destruct (mapper_apply_command _ _ _) as [config status];
      split; [reflexivity | right; eexists; split; reflexivity]
     |split; [reflexivity | left; split; reflexivity]]).
Qed.

Lemma apply_command_shape (mp : MappingProcessor) (cmd : Command) :
  fst (apply_command mp cmd) = mp
  ∨ ∃ m, fst (apply_command mp cmd) = reset_mapper mp (index cmd) m.
Proof.
  destruct (apply_command_local mp mp cmd eq_refl eq_refl) as [_ [[Hs _]|[m [Hs _]]]];
    [left; exact Hs | right; exists m; exact Hs].
Qed.

Lemma apply_command_frame (mp : MappingProcessor) (cmd : Command) :
  _max_n_pins (fst (apply_command mp cmd)) = _max_n_pins mp
  ∧ length (_mappers (fst (apply_command mp cmd))) = length (_mappers mp)
  ∧ ∀ j, j ≠ index cmd →
         mapper_at (fst (apply_command mp cmd)) j = mapper_at mp j.
Proof.
  destruct (apply_command_shape mp cmd) as [->|[m ->]].
  - repeat split; reflexivity.
  - split; [apply reset_mapper_max_n_pins|]. split; [apply reset_mapper_length|].
    intros j Hj. apply mapper_at_reset_ne. congruence.
Qed.

(** [apply_command] never resizes the processor and never touches another
    slot than the one the command names, whatever the command and whatever
    the mapper does with it. *)
Theorem apply_command_touches_one_slot (mp : MappingProcessor) (cmd : Command) (j : Z) :
  j ≠ index cmd →
  mapper_at (fst (apply_command mp cmd)) j = mapper_at mp j
  ∧ _max_n_pins (fst (apply_command mp cmd)) = _max_n_pins mp
  ∧ length (_mappers (fst (apply_command mp cmd))) = length (_mappers mp).
Proof.
  intros Hj. destruct (apply_command_shape mp cmd) as [->|[m ->]].
  - repeat split; reflexivity.
  - split; [apply mapper_at_reset_ne; congruence|].
    split; [apply reset_mapper_max_n_pins | apply reset_mapper_length].
Qed.

(** Only SET_PIN_TYPE decides which pins have a mapper and of which kind:
    after any other command, accepted or refused, every slot holds a
    mapper of the kind it held before, or none as before. *)
Theorem only_set_pin_type_changes_kinds (mp : MappingProcessor) (cmd : Command) (p : Z) :
  tag cmd ≠ SET_PIN_TYPE →
  kind_at (fst (apply_command mp cmd)) p = kind_at mp p.
Proof.
  intros Htag. unfold kind_at.
  destruct (decide (p = index cmd)) as [->|Hne];
    [|f_equal; apply apply_command_frame; exact Hne].
  unfold apply_command.
  destruct ((index cmd <? 0) || (index cmd >? _max_n_pins mp - 1)); [reflexivity|].
  unfold tag in Htag.
  destruct (data cmd); try contradiction;
    (destruct (mapper_at mp (index cmd)) as [m|] eqn:E; simpl; [|rewrite E; reflexivity];
     destruct (mapper_apply_command _ _ _) as [config status]; simpl;
     rewrite (mapper_at_reset_present mp (index cmd) m _ E); reflexivity).
Qed.

(** Commands for different pins do not interfere: applied in either
    order they leave the same processor, and each gets the answer it
    would get alone. *)
Theorem apply_command_commutes (mp : MappingProcessor) (c1 c2 : Command) :
  index c1 ≠ index c2 →
  fst (apply_command (fst (apply_command mp c1)) c2)
  = fst (apply_command (fst (apply_command mp c2)) c1)
  ∧ snd (apply_command (fst (apply_command mp c1)) c2) = snd (apply_command mp c2)
  ∧ snd (apply_command (fst (apply_command mp c2)) c1) = snd (apply_command mp c1).
Proof.
  intros Hne.
  destruct (apply_command_frame mp c1) as (Hm1 & _ & Hf1).
  destruct (apply_command_frame mp c2) as (Hm2 & _ & Hf2).
  destruct (apply_command_local mp (fst (apply_command mp c1)) c2)
    as [Hs2 Hc2]; [congruence | rewrite Hf1; congruence|].
  destruct (apply_command_local mp (fst (apply_command mp c2)) c1)
    as [Hs1 Hc1]; [congruence | rewrite Hf2; congruence|].
  split; [|split; congruence].
  destruct Hc1 as [[A1 B1]|[m1 [A1 B1]]]; destruct Hc2 as [[A2 B2]|[m2 [A2 B2]]];
    rewrite B1, B2, ?A1, ?A2; try reflexivity.
  apply reset_mapper_commute. exact Hne.
Qed.

(** A repeated SET_PIN_TYPE is the same as one: the second gets the same
    answer and leaves the processor the first one left, with a freshly
    constructed mapper. *)
Theorem set_pin_type_twice (mp : MappingProcessor) (cmd : Command) :
  tag cmd = SET_PIN_TYPE →
  apply_command (fst (apply_command mp cmd)) cmd = apply_command mp cmd.
Proof.
  intros Htag. unfold tag in Htag. unfold apply_command at 2 3.
  destruct ((index cmd <? 0) || (index cmd >? _max_n_pins mp - 1)) eqn:Hguard.
  - simpl. unfold apply_command. rewrite Hguard. reflexivity.
  - destruct (data cmd) as [pin_type| | | | | | | | | | | | | | |] eqn:Hdata;
      try discriminate Htag.
    destruct pin_type; simpl; unfold apply_command;
      rewrite ?reset_mapper_max_n_pins, Hguard, Hdata, ?reset_mapper_twice;
      reflexivity.
Qed.

(** A processor fresh from its constructor refuses every command that is
    not a SET_PIN_TYPE, with INVALID_PIN_INDEX or UNINITIALIZED_PIN, and
    stays as constructed whatever the number of such commands. *)
Theorem fresh_processor_needs_set_pin_type (n : Z) (mp : MappingProcessor)
    (cmds : list Command) :
  MappingProcessor_new n = Some mp →
  Forall (fun cmd => tag cmd ≠ SET_PIN_TYPE) cmds →
  apply_commands mp cmds = mp
  ∧ Forall (fun cmd => snd (apply_command mp cmd)
                       = if bool_decide (0 ≤ index cmd ≤ n - 1)
                         then UNINITIALIZED_PIN else INVALID_PIN_INDEX) cmds.
Proof.
  intros Hnew Hall.
  destruct (MappingProcessor_new_consistent n mp Hnew) as (_ & Hmax & _ & Hempty).
  assert (Hone : ∀ cmd, tag cmd ≠ SET_PIN_TYPE →
    apply_command mp cmd
    = (mp, if bool_decide (0 ≤ index cmd ≤ n - 1)
           then UNINITIALIZED_PIN else INVALID_PIN_INDEX)).
  { intros cmd Htag. unfold apply_command. rewrite Hmax, Hempty.
    destruct (bool_decide (0 ≤ index cmd ≤ n - 1)) eqn:Hin.
    - apply bool_decide_eq_true in Hin.
      rewrite <- Hmax, (in_range_guard mp) by lia.
      unfold tag in Htag. destruct (data cmd); try reflexivity. contradiction.
    - apply bool_decide_eq_false in Hin.
      rewrite <- Hmax, (out_of_range_guard mp) by lia. reflexivity. }
  split.
  - unfold apply_commands. induction Hall as [|cmd cmds Htag _ IH]; [reflexivity|].
    simpl. rewrite (Hone cmd Htag). exact IH.
  - eapply Forall_impl; [exact Hall|]. intros cmd Htag. simpl.
    rewrite (Hone cmd Htag). reflexivity.
Qed.

End MappingProcessorFrame.

Lemma apply_command_touches_one_slot_witness :
  mapper_at (fst (apply_command one_pin_configured
                    (command 3 MAPPING (SetPinTypeCommand DIGITAL_INPUT)))) 12
  = mapper_at one_pin_configured 12
  ∧ kind_at one_pin_configured 12 = Some Analog.
Proof.
  split; [|reflexivity].
  apply (apply_command_touches_one_slot one_pin_configured
           (command 3 MAPPING (SetPinTypeCommand DIGITAL_INPUT)) 12).
  discriminate.
Defined.

Lemma only_set_pin_type_changes_kinds_witness :
  kind_at (fst (apply_command one_pin_configured
                  (command 12 MAPPING (SetInvertEnabledCommand true)))) 12
  = Some Analog
  ∧ snd (apply_command one_pin_configured
           (command 12 MAPPING (SetInvertEnabledCommand true))) = OK.
Proof.
  split; [|reflexivity].
  rewrite (only_set_pin_type_changes_kinds one_pin_configured
             (command 12 MAPPING (SetInvertEnabledCommand true)) 12);
    [reflexivity | discriminate].
Defined.

Lemma apply_command_commutes_witness :
  fst (apply_command
         (fst (apply_command one_pin_configured
                 (command 3 MAPPING (SetPinTypeCommand DIGITAL_INPUT))))
         (command 12 MAPPING (SetPinTypeCommand IMU_INPUT)))
  = fst (apply_command
           (fst (apply_command one_pin_configured
                   (command 12 MAPPING (SetPinTypeCommand IMU_INPUT))))
           (command 3 MAPPING (SetPinTypeCommand DIGITAL_INPUT))).
Proof.
  apply (apply_command_commutes one_pin_configured
           (command 3 MAPPING (SetPinTypeCommand DIGITAL_INPUT))
           (command 12 MAPPING (SetPinTypeCommand IMU_INPUT))).
  discriminate.
Defined.

Lemma set_pin_type_twice_witness :
  apply_command
    (fst (apply_command one_pin_configured
            (command 12 MAPPING (SetPinTypeCommand ANALOG_INPUT))))
    (command 12 MAPPING (SetPinTypeCommand ANALOG_INPUT))
  = apply_command one_pin_configured
      (command 12 MAPPING (SetPinTypeCommand ANALOG_INPUT))
  ∧ mapper_at (fst (apply_command one_pin_configured
                      (command 12 MAPPING (SetPinTypeCommand ANALOG_INPUT)))) 12
    ≠ mapper_at one_pin_configured 12.
Proof.
  split; [|discriminate].
  apply (set_pin_type_twice one_pin_configured
           (command 12 MAPPING (SetPinTypeCommand ANALOG_INPUT))).
  reflexivity.
Defined.

Lemma fresh_processor_needs_set_pin_type_witness :
  apply_commands sixteen_pins
    [ command 12 MAPPING (SetSendingModeCommand CONTINUOUS);
      command 16 MAPPING (SetInvertEnabledCommand true);
      command 0 MAPPING (EnableSendingCommand true) ]
  = sixteen_pins.
Proof.
  apply (fresh_processor_needs_set_pin_type 16 sixteen_pins
           [ command 12 MAPPING (SetSendingModeCommand CONTINUOUS);
             command 16 MAPPING (SetInvertEnabledCommand true);
             command 0 MAPPING (EnableSendingCommand true) ] eq_refl).
  repeat constructor; discriminate.
Defined.

(** ** process *)

Section ProcessProperties.
Context `{ValueMappers}.

(** [process] has a result exactly for a value whose index is inside the
    vector. *)
Lemma process_defined_iff (mp : MappingProcessor) (value : Value)
    (backend : list Value) :
  is_Some (process mp value backend)
  ↔ 0 ≤ value_index value < Z.of_nat (length (_mappers mp)).
Proof.
  unfold process. destruct (Z.ltb_spec (value_index value) 0) as [Hneg|Hpos].
  - split; [intros [? [=]] | lia].
  - destruct (_mappers mp !! Z.to_nat (value_index value)) as [[m|]|] eqn:E.
    + apply lookup_lt_Some in E.
      destruct (mapper_process (mapper_kind m) (mapper_config m) value).
      split; [lia | eauto].
    + apply lookup_lt_Some in E. split; [lia | eauto].
    + apply lookup_ge_None in E. split; [intros [? [=]] | lia].
Qed.


End ProcessProperties.


(** ** put_config_commands_into *)

Section PutConfigProperties.
Context `{ConfigMappers}.

Lemma put_config_commands_into_concat (mp : MappingProcessor) (out : list Command) :
  put_config_commands_into mp out
  = out ++ mjoin (slot_config_commands <$> _mappers mp).
Proof.
  unfold put_config_commands_into. generalize (_mappers mp) as slots.
  intros slots. revert out. induction slots as [|slot slots IH]; intros out.
  - simpl. rewrite app_nil_r. reflexivity.
  - cbn [foldl fmap list_fmap mjoin list_join]. rewrite IH, <- app_assoc. reflexivity.
Qed.

Lemma last_pin_type_app (p : Z) (a b : list Command) (acc : option MapperKind) :
  last_pin_type p (a ++ b) acc = last_pin_type p b (last_pin_type p a acc).
Proof.
  revert acc. induction a as [|c a IH]; intros acc; [reflexivity|].
  simpl. apply IH.
Qed.

Lemma last_pin_type_other_pin (p i : Z) (cmds : list Command)
    (acc : option MapperKind) :
  i ≠ p → Forall (fun c => index c = i) cmds →
  last_pin_type p cmds acc = acc.
Proof.
  intros Hne Hall. revert acc.
  induction Hall as [|c cmds Hc _ IH]; intros acc; [reflexivity|].
  simpl. rewrite IH. destruct (data c); try reflexivity.
  rewrite decide_False by congruence. reflexivity.
Qed.

Lemma last_pin_type_other_tags (p : Z) (cmds : list Command)
    (acc : option MapperKind) :
  Forall (fun c => tag c ≠ SET_PIN_TYPE) cmds →
  last_pin_type p cmds acc = acc.
Proof.
  intros Hall. revert acc.
  induction Hall as [|c cmds Hc _ IH]; intros acc; [reflexivity|].
  simpl. rewrite IH. unfold tag in Hc. destruct (data c); try reflexivity.
  contradiction.
Qed.

Lemma own_configuration_indices (i : Z) (m : Mapper) (cmds : list Command) :
  own_configuration i m cmds → Forall (fun c => index c = i) cmds.
Proof.
  intros (first & rest & t & -> & Hi & _ & _ & Hrest).
  constructor; [exact Hi|]. eapply Forall_impl; [exact Hrest|].
  intros c [Hc _]. exact Hc.
Qed.

Lemma own_configuration_kind (i : Z) (m : Mapper) (cmds : list Command)
    (acc : option MapperKind) :
  own_configuration i m cmds →
  last_pin_type i cmds acc = Some (mapper_kind m).
Proof.
  intros (first & rest & t & -> & Hi & Hd & Hk & Hrest).
  simpl. rewrite Hd, decide_True by exact Hi. rewrite Hk.
  apply last_pin_type_other_tags. eapply Forall_impl; [exact Hrest|].
  intros c [_ Hc]. exact Hc.
Qed.

(** The kind the commands put out for a vector of slots select for pin
    [p], when every mapper puts out its own configuration. *)
Lemma last_pin_type_slots (slots : list (option Mapper)) (p : nat)
    (acc : option MapperKind) :
  (∀ (j : nat) (m : Mapper), slots !! j = Some (Some m) →
     own_configuration (Z.of_nat j) m (slot_config_commands (Some m))) →
  last_pin_type (Z.of_nat p) (mjoin (slot_config_commands <$> slots)) acc
  = match slots !! p with
    | Some (Some m) => Some (mapper_kind m)
    | _ => acc
    end.
Proof.
  induction slots as [|slot slots IH] using rev_ind; intros Hlaw; [reflexivity|].
  rewrite fmap_app, join_app, last_pin_type_app. cbn [fmap list_fmap mjoin list_join].
  rewrite app_nil_r.
  rewrite IH by (intros j m Hj; apply Hlaw; rewrite lookup_app_l;
                 [exact Hj | apply lookup_lt_Some in Hj; exact Hj]).
  destruct (decide (p = length slots)) as [->|Hne].
  - rewrite lookup_ge_None_2 by lia.
    rewrite list_lookup_middle by reflexivity.
    destruct slot as [m|]; [|reflexivity].
    apply own_configuration_kind, Hlaw.
    apply list_lookup_middle. reflexivity.
  - assert (Hother : ∀ x, last_pin_type (Z.of_nat p) (slot_config_commands slot) x = x).
    { intros x. destruct slot as [m|]; [|reflexivity].
      apply (last_pin_type_other_pin _ (Z.of_nat (length slots))); [lia|].
      apply (own_configuration_indices _ m), Hlaw.
      apply list_lookup_middle. reflexivity. }
    rewrite Hother.
    destruct (decide (p < length slots)%nat) as [Hlt|Hge].
    + rewrite lookup_app_l by exact Hlt. reflexivity.
    + rewrite !lookup_ge_None_2; [reflexivity | | lia].
      rewrite length_app. simpl. lia.
Qed.

(** A saved configuration brings the pins back: when every mapper puts
    out its own configuration (a SET_PIN_TYPE of its pin and class, then
    other commands for that pin), applying what
    [put_config_commands_into] puts out to a processor fresh from the
    constructor, of the same size, gives every pin a mapper of the kind
    it has in the processor saved, and no mapper to the other pins. *)
Theorem put_config_commands_restore_kinds (mp fresh : MappingProcessor) (p : Z) :
  consistent mp →
  (∀ i m, mapper_at mp i = Some m →
          own_configuration i m (slot_config_commands (Some m))) →
  MappingProcessor_new (_max_n_pins mp) = Some fresh →
  kind_at (apply_commands fresh (put_config_commands_into mp [])) p
  = kind_at mp p.
Proof.
  intros Hc Hlaw Hnew.
  destruct (MappingProcessor_new_consistent _ fresh Hnew)
    as (Hcf & Hmaxf & Hpos & Hempty).
  destruct (apply_commands_invariant fresh (put_config_commands_into mp []) Hcf)
    as [Hc' Hmax'].
  destruct (decide (0 ≤ p ≤ _max_n_pins mp - 1)) as [Hin|Hout].
  - rewrite kind_at_apply_commands by (try exact Hcf; lia).
    rewrite put_config_commands_into_concat, app_nil_l.
    assert (Hfresh : kind_at fresh p = None) by (unfold kind_at; rewrite Hempty; reflexivity).
    rewrite Hfresh.
    assert (Hp : p = Z.of_nat (Z.to_nat p)) by lia.
    rewrite Hp at 1. rewrite last_pin_type_slots.
    + unfold kind_at, mapper_at.
      destruct (Z.ltb_spec p 0) as [|_]; [lia|].
      destruct (_mappers mp !! Z.to_nat p) as [[m|]|]; reflexivity.
    + intros j m Hj. apply Hlaw. unfold mapper_at.
      destruct (Z.ltb_spec (Z.of_nat j) 0) as [|_]; [lia|].
      rewrite Nat2Z.id, Hj. reflexivity.
  - assert (Hnone : ∀ x : MappingProcessor,
              consistent x → _max_n_pins x = _max_n_pins mp → kind_at x p = None).
    { intros x Hx Hmx. unfold kind_at, mapper_at.
      destruct (Z.ltb_spec p 0) as [|Hp]; [reflexivity|].
      rewrite lookup_ge_None_2; [reflexivity|]. unfold consistent in Hx. lia. }
    rewrite (Hnone mp Hc eq_refl). apply Hnone; [exact Hc' | congruence].
Qed.

(** A processor on which no SET_PIN_TYPE has succeeded has nothing to
    save: [put_config_commands_into] leaves the output as it is. *)
Theorem put_config_commands_of_empty_processor (mp : MappingProcessor)
    (out : list Command) :
  (∀ p, mapper_at mp p = None) →
  put_config_commands_into mp out = out.
Proof.
  intros Hempty. rewrite put_config_commands_into_concat.
  assert (Hnil : mjoin (slot_config_commands <$> _mappers mp) = []).
  { assert (Hslots : Forall (fun slot => slot = None) (_mappers mp)).
    { apply Forall_lookup. intros j slot Hj. specialize (Hempty (Z.of_nat j)).
      unfold mapper_at in Hempty.
      destruct (Z.ltb_spec (Z.of_nat j) 0) as [|_]; [lia|].
      rewrite Nat2Z.id, Hj in Hempty. exact Hempty. }
    induction Hslots as [|slot slots -> _ IH]; [reflexivity | exact IH]. }
  rewrite Hnil. apply app_nil_r.
Qed.

End PutConfigProperties.

Lemma one_pin_configured_consistent : consistent one_pin_configured.
Proof. reflexivity. Qed.

Lemma recorded_configuration (i : Z) (m : Mapper) :
  mapper_at one_pin_configured i = Some m →
  own_configuration i m (slot_config_commands (Some m)).
Proof.
  intros Hm. assert (Hi : i = 12).
  { unfold mapper_at in Hm. destruct (Z.ltb_spec i 0) as [|Hpos]; [discriminate|].
    destruct (decide (Z.to_nat i = 12%nat)) as [E|E]; [lia|].
    destruct (decide (Z.to_nat i < 16)%nat) as [Hlt|Hge].
    - exfalso. revert Hm. generalize (Z.to_nat i) Hlt E. clear.
      intros n Hlt E. do 16 (destruct n as [|n]; [try discriminate; try lia|]). lia.
    - rewrite lookup_ge_None_2 in Hm by (simpl; lia). discriminate. }
  subst i. exists (command 12 MAPPING
                     (SetPinTypeCommand match mapper_kind m with
                                        | Digital => DIGITAL_INPUT
                                        | Analog => ANALOG_INPUT
                                        | Imu => IMU_INPUT
                                        end)),
                  [command 12 MAPPING (EnableSendingCommand true)],
                  (match mapper_kind m with
                   | Digital => DIGITAL_INPUT
                   | Analog => ANALOG_INPUT
                   | Imu => IMU_INPUT
                   end).
  split; [reflexivity|]. split; [reflexivity|]. split; [reflexivity|].
  split; [destruct (mapper_kind m); reflexivity|].
  repeat constructor. discriminate.
Qed.

Lemma put_config_commands_restore_kinds_witness :
  kind_at (apply_commands sixteen_pins
             (put_config_commands_into one_pin_configured [])) 12
  = Some Analog.
Proof.
  rewrite (put_config_commands_restore_kinds one_pin_configured sixteen_pins 12
             one_pin_configured_consistent recorded_configuration eq_refl).
  reflexivity.
Defined.

Lemma put_config_commands_of_empty_processor_witness :
  put_config_commands_into sixteen_pins
    [command 1 MAPPING (EnableSendingCommand true)]
  = [command 1 MAPPING (EnableSendingCommand true)].
Proof.
  apply (put_config_commands_of_empty_processor sixteen_pins).
  apply (MappingProcessor_new_consistent 16 sixteen_pins eq_refl).
Defined.
